(** * SerialPlotterTUI: line parser, series store and link supervisor

    A shallow embedding of the ingestion pipeline of [SerialPlotterTUI.py]
    (and of its two sibling variants [serial_plotter_tui.py] and
    [serial_plotter.py]): [parse_line], [PlotextGraph.add_values],
    [CurrentValues.update_values], [process_line], [action_clear] and the
    body of [read_serial_loop].

    Conventions of the embedding:
    - a Python [str] is a list of Unicode code points ([list N]);
    - a Python [dict] is a [gmap] (insertion order plays no part in the
      properties below);
    - a Python [float] is a binary64 [spec_float];
    - code that can raise returns a [result]; [try/except ValueError] is
      [try_except_ValueError];
    - [collections.deque(maxlen=n)] is a record of its bound and items. *)

From Stdlib Require Import ZArith NArith QArith List String Ascii Lia DecimalNat.
From Stdlib Require Import Floats.SpecFloat.
From stdpp Require Import gmap list sorting.

Local Open Scope Z_scope.

(** ** Exceptions and results *)

Inductive exn :=
| ValueError
| SerialException
| OSError
| OtherException.

Inductive result (A : Type) :=
| Ok (a : A)
| Raise (e : exn).

Arguments Ok {A} a.
Arguments Raise {A} e.

#[global] Instance result_ret : MRet result := fun A a => Ok a.

#[global] Instance result_bind : MBind result := fun A B k r =>
  match r with
  | Ok a => k a
  | Raise e => Raise e
  end.

(** [try: body except ValueError: handler] *)
Definition try_except_ValueError {A} (body : result A) (handler : result A) : result A :=
  match body with
  | Raise ValueError => handler
  | other => other
  end.

(** ** Text: code points and the Unicode predicates of CPython *)

Abbreviation pystr := (list N).

(** A string literal of the development as a [str] (ASCII literals only). *)
Definition str (s : string) : pystr := N_of_ascii <$> list_ascii_of_string s.

(** The Unicode character database outside ASCII.  The source relies on it
    through [str.strip], [\w], [\s], [\d] and [float]; the tables themselves
    are data of the interpreter, taken here as a parameter. *)
Record UnicodeDB := {
  uni_isalpha : N -> bool;
  uni_isdigit : N -> bool;
  uni_isnumeric : N -> bool;
  uni_isspace : N -> bool;
  uni_todecimal : N -> option N
}.

(** A database with nothing outside ASCII. *)
Definition ascii_db : UnicodeDB :=
  {| uni_isalpha := fun _ => false;
     uni_isdigit := fun _ => false;
     uni_isnumeric := fun _ => false;
     uni_isspace := fun _ => false;
     uni_todecimal := fun _ => None |}.

Definition in_range (lo hi c : N) : bool := ((lo <=? c) && (c <=? hi))%N.

(** [Py_UNICODE_TODECIMAL]: the value of a decimal digit. *)
Definition todecimal (db : UnicodeDB) (c : N) : option N :=
  if (c <? 128)%N then
    if in_range 48 57 c then Some (c - 48)%N else None
  else uni_todecimal db c.

(** [Py_UNICODE_ISDECIMAL], the class [\d]. *)
Definition isdecimal (db : UnicodeDB) (c : N) : bool :=
  match todecimal db c with Some _ => true | None => false end.

(** [Py_UNICODE_ISSPACE], the class [\s] and the characters [strip] removes. *)
Definition isspace (db : UnicodeDB) (c : N) : bool :=
  if (c <? 128)%N then in_range 9 13 c || in_range 28 32 c
  else uni_isspace db c.

(** [Py_UNICODE_ISALNUM]: alpha, decimal, digit or numeric. *)
Definition isalnum (db : UnicodeDB) (c : N) : bool :=
  if (c <? 128)%N then in_range 48 57 c || in_range 65 90 c || in_range 97 122 c
  else uni_isalpha db c || isdecimal db c || uni_isdigit db c || uni_isnumeric db c.

(** [str.strip()]: leading and trailing whitespace removed. *)
Fixpoint lstrip (db : UnicodeDB) (s : pystr) : pystr :=
  match s with
  | c :: s' => if isspace db c then lstrip db s' else s
  | [] => []
  end.

Definition rstrip (db : UnicodeDB) (s : pystr) : pystr :=
  rev (lstrip db (rev s)).

Definition strip (db : UnicodeDB) (s : pystr) : pystr :=
  rstrip db (lstrip db s).

(** [str(n)] for a natural number, as used by the f-string [f'CH{i+1}']. *)
Fixpoint uint_str (d : Decimal.uint) : pystr :=
  match d with
  | Decimal.Nil => []
  | Decimal.D0 d => 48%N :: uint_str d
  | Decimal.D1 d => 49%N :: uint_str d
  | Decimal.D2 d => 50%N :: uint_str d
  | Decimal.D3 d => 51%N :: uint_str d
  | Decimal.D4 d => 52%N :: uint_str d
  | Decimal.D5 d => 53%N :: uint_str d
  | Decimal.D6 d => 54%N :: uint_str d
  | Decimal.D7 d => 55%N :: uint_str d
  | Decimal.D8 d => 56%N :: uint_str d
  | Decimal.D9 d => 57%N :: uint_str d
  end.

Definition nat_str (n : nat) : pystr := uint_str (Nat.to_uint n).

(** ** Regular expressions: the fragment of [re] the parser uses

    A backtracking matcher in continuation-passing style, with greedy
    quantifiers over character classes and capture groups, as [sre] runs
    them.  None of the three patterns of [parse_line] can match the empty
    string, so the scanning functions below do not model [sre]'s treatment
    of empty matches. *)
Module Re.

Inductive regex :=
| Chr (p : N -> bool)          (* one character of a class *)
| Opt (p : N -> bool)          (* [c?], greedy *)
| Star (p : N -> bool)         (* [c*], greedy *)
| Plus (p : N -> bool)         (* [c+], greedy *)
| Cat (r1 r2 : regex)          (* concatenation *)
| Grp (r : regex).             (* capture group *)

Definition orelse {A} (x y : option A) : option A :=
  match x with
  | Some a => Some a
  | None => y
  end.

(** Greedy repetition: take one more character first, give it back when
    the continuation fails. *)
Fixpoint star {A} (p : N -> bool) (s : pystr) (k : pystr -> option A) : option A :=
  match s with
  | c :: s' => if p c then orelse (star p s' k) (k s) else k s
  | [] => k []
  end.

(** [mtch r s caps k]: match [r] at the head of [s]; [k] receives the rest
    of the input and the groups captured so far, in order of closing. *)
Fixpoint mtch {A} (r : regex) (s : pystr) (caps : list pystr)
    (k : pystr -> list pystr -> option A) : option A :=
  match r with
  | Chr p =>
      match s with
      | c :: s' => if p c then k s' caps else None
      | [] => None
      end
  | Opt p =>
      match s with
      | c :: s' => if p c then orelse (k s' caps) (k s caps) else k s caps
      | [] => k s caps
      end
  | Star p => star p s (fun s' => k s' caps)
  | Plus p =>
      match s with
      | c :: s' => if p c then star p s' (fun s' => k s' caps) else None
      | [] => None
      end
  | Cat r1 r2 => mtch r1 s caps (fun s' caps' => mtch r2 s' caps' k)
  | Grp r1 =>
      mtch r1 s caps
        (fun s' caps' => k s' (caps' ++ [take (length s - length s') s]))
  end.

(** A match anchored at the head of [s]: the rest and the groups. *)
Definition match_here (r : regex) (s : pystr) : option (pystr * list pystr) :=
  mtch r s [] (fun s' caps => Some (s', caps)).

(** The text a match at the head of [s] consumed, given what is left. *)
Definition consumed (s rest : pystr) : pystr :=
  take (length s - length rest) s.

(** [re.search(r, s)]: the leftmost match; [Some] of its [group()]. *)
Fixpoint search (r : regex) (s : pystr) : option pystr :=
  match match_here r s with
  | Some (rest, _) => Some (consumed s rest)
  | None =>
      match s with
      | _ :: s' => search r s'
      | [] => None
      end
  end.

(** [re.findall(r, s)] for a pattern with groups: the groups of every
    non-overlapping match, left to right.  [skip] counts the characters
    still covered by the previous match. *)
Fixpoint findall_from (r : regex) (s : pystr) (skip : nat) : list (list pystr) :=
  match skip with
  | S n =>
      match s with
      | _ :: s' => findall_from r s' n
      | [] => []
      end
  | O =>
      match match_here r s with
      | Some (rest, caps) =>
          caps ::
          match s with
          | _ :: s' => findall_from r s' (length s - length rest - 1)
          | [] => []
          end
      | None =>
          match s with
          | _ :: s' => findall_from r s' 0
          | [] => []
          end
      end
  end.

Definition findall (r : regex) (s : pystr) : list (list pystr) :=
  findall_from r s 0.

(** [re.split(r, s)] for a pattern without groups: the pieces between the
    matches; [cur] is the piece being read. *)
Fixpoint split_from (r : regex) (s : pystr) (skip : nat) (cur : pystr) : list pystr :=
  match s with
  | [] => [cur]
  | c :: s' =>
      match skip with
      | S n => split_from r s' n cur
      | O =>
          match match_here r s with
          | Some (rest, _) =>
              cur :: split_from r s' (length s - length rest - 1) []
          | None => split_from r s' 0 (cur ++ [c])
          end
      end
  end.

Definition split (r : regex) (s : pystr) : list pystr :=
  split_from r s 0 [].

End Re.

Import Re.

(** The patterns of [parse_line]. *)

Definition chr_in (cs : string) (c : N) : bool :=
  bool_decide (c ∈ str cs).

(** [[-+]?\d*\.?\d+] *)
Definition number_pattern (db : UnicodeDB) : regex :=
  Cat (Opt (chr_in "-+"))
    (Cat (Star (isdecimal db))
      (Cat (Opt (chr_in ".")) (Plus (isdecimal db)))).

Definition is_word (db : UnicodeDB) (c : N) : bool :=
  isalnum db c || chr_in "_" c.

(** [(\w+)\s*[:=]\s*([-+]?\d*\.?\d+)] *)
Definition labeled_pattern (db : UnicodeDB) : regex :=
  Cat (Grp (Plus (is_word db)))
    (Cat (Star (isspace db))
      (Cat (Chr (chr_in ":="))
        (Cat (Star (isspace db)) (Grp (number_pattern db))))).

(** [[,;\s\t]+] *)
Definition is_separator (db : UnicodeDB) (c : N) : bool :=
  chr_in ",;" c || isspace db c || (c =? 9)%N.

Definition separator_pattern (db : UnicodeDB) : regex :=
  Plus (is_separator db).

(** ** Floating point: [float(str)]

    CPython converts a decimal literal to the nearest binary64 value, ties
    to even, and to an infinity when the literal is out of range.  The
    rounding is the one of [SpecFloat]: the quotient of the digits by the
    power of ten, with the position of the remainder, rounded by
    [binary_round_aux]. *)

Definition prec : Z := 53.
Definition emax : Z := 1024.

Abbreviation pyfloat := spec_float.

(** The float nearest to [m / 10^k], with sign [neg]; [m >= 0]. *)
Definition float_of_decimal (neg : bool) (m : Z) (k : nat) : pyfloat :=
  match m with
  | Z0 => S754_zero neg
  | _ =>
      let '(q, e, l) := SFdiv_core_binary prec emax m 0 (10 ^ Z.of_nat k) 0 in
      binary_round_aux prec emax neg q e l
  end.

(** The float of an integer, to write expected values. *)
Definition float_of_Z (z : Z) : pyfloat := binary_normalize prec emax z 0 false.

(** The float of [m / 10^k] for [m >= 0], to write expected values. *)
Definition float_of_ratio (m : Z) (k : nat) : pyfloat := float_of_decimal false m k.

Definition is_nan (x : pyfloat) : bool :=
  match x with S754_nan => true | _ => false end.


(** The decimal digits at the head of [s]: their value on top of [acc],
    their number on top of [n], and the rest of [s]. *)
Fixpoint read_digits (db : UnicodeDB) (s : pystr) (acc : Z) (n : nat) : Z * nat * pystr :=
  match s with
  | c :: s' =>
      match todecimal db c with
      | Some d => read_digits db s' (10 * acc + Z.of_N d) (S n)
      | None => (acc, n, s)
      end
  | [] => (acc, n, [])
  end.

(** The sign at the head of a literal, if any, and the rest. *)
Definition read_sign (s : pystr) : bool * pystr :=
  match s with
  | c :: s' =>
      if (c =? 45)%N then (true, s')          (* - *)
      else if (c =? 43)%N then (false, s')    (* + *)
      else (false, s)
  | [] => (false, s)
  end.

(** The point and the digits after it, if any, read on top of [m1]. *)
Definition read_fraction (db : UnicodeDB) (m1 : Z) (s : pystr) : Z * nat * pystr :=
  match s with
  | c :: s' =>
      if (c =? 46)%N then read_digits db s' m1 0   (* . *)
      else (m1, O, s)
  | [] => (m1, O, s)
  end.

(** The sign of a literal, its digits read as one integer, and the number
    of digits after the point: the literal stands for [m / 10^k]. *)
Definition parse_decimal (db : UnicodeDB) (s : pystr) : result (bool * Z * nat) :=
  let '(neg, s1) := read_sign s in
  let '(m1, n1, s2) := read_digits db s1 0 0 in
  let '(m, n2, s3) := read_fraction db m1 s2 in
  match s3 with
  | [] =>
      if (n1 + n2 =? 0)%nat then Raise ValueError
      else Ok (neg, m, n2)
  | _ :: _ => Raise ValueError
  end.

(** [float(s)] on plain decimal literals: an optional sign, digits, an
    optional point and digits, with a digit on one side of the point at
    least.  The other spellings [float] accepts (exponents, [inf], [nan],
    underscores, surrounding blanks) hold characters that no match of
    [number_pattern] can hold; they are rejected here. *)
Definition py_float (db : UnicodeDB) (s : pystr) : result pyfloat :=
  d ← parse_decimal db s;
  let '(neg, m, k) := d in
  Ok (float_of_decimal neg m k).

(** ** [parse_line] *)

(** A [for] loop over a list whose body can raise. *)
Fixpoint for_each {A S} (l : list A) (body : A -> S -> result S) (s : S) : result S :=
  match l with
  | [] => Ok s
  | a :: l' => s' ← body a s; for_each l' body s'
  end.

(** [enumerate(l)], counting from [i]. *)
Fixpoint enumerate_from {A} (i : nat) (l : list A) : list (nat * A) :=
  match l with
  | [] => []
  | a :: l' => (i, a) :: enumerate_from (S i) l'
  end.

Definition enumerate {A} (l : list A) : list (nat * A) := enumerate_from 0 l.

(** Group [i] (from 0) of a tuple of [findall]. *)
Definition group (caps : list pystr) (i : nat) : pystr := nth i caps [].

Abbreviation batch := (gmap pystr pyfloat).

(** The name of the channel of field [i] (from 0): [f'CH{i+1}'] in the two
    TUI variants, [f'Kanal_{i+1}'] in [serial_plotter.py]. *)
Definition channel_name (prefix : pystr) (i : nat) : pystr :=
  prefix ++ nat_str (i + 1).

(** The matches of the labeled grammar in a line. *)
Definition labeled_matches (db : UnicodeDB) (line : pystr) : list (list pystr) :=
  findall (labeled_pattern db) (strip db line).

(** The body of the loop over the labeled matches:
    [try: values[label] = float(value) except ValueError: pass]. *)
Definition labeled_body (db : UnicodeDB) (m : list pystr) (values : batch) : result batch :=
  let label := group m 0 in
  let value := group m 1 in
  try_except_ValueError
    (v ← py_float db value; Ok (<[label := v]> values))
    (Ok values).

(** The body of the loop over the fields of the positional grammar. *)
Definition positional_body (prefix : pystr) (db : UnicodeDB)
    (ip : nat * pystr) (values : batch) : result batch :=
  let '(i, part) := ip in
  try_except_ValueError
    (match search (number_pattern db) part with
     | Some num_match =>
         v ← py_float db num_match;
         Ok (<[channel_name prefix i := v]> values)
     | None => Ok values
     end)
    (Ok values).

(** [parse_line], the prefix of the channel names being a parameter. *)
Definition parse_line_with (prefix : pystr) (db : UnicodeDB) (line : pystr) : result batch :=
  let line := strip db line in
  if bool_decide (line = []) then Ok ∅
  else
    let values : batch := ∅ in
    let labeled_matches := findall (labeled_pattern db) line in
    match labeled_matches with
    | _ :: _ => for_each labeled_matches (labeled_body db) values
    | [] =>
        let parts := Re.split (separator_pattern db) line in
        for_each (enumerate parts) (positional_body prefix db) values
    end.

(** [SerialPlotterTUI.parse_line] of [SerialPlotterTUI.py] and
    [serial_plotter_tui.py]. *)
Definition parse_line : UnicodeDB -> pystr -> result batch :=
  parse_line_with (str "CH").

(** [SerialPlotter.parse_line] of [serial_plotter.py]. *)
Definition SerialPlotter_parse_line : UnicodeDB -> pystr -> result batch :=
  parse_line_with (str "Kanal_").

(** ** [collections.deque] with a bound *)

Record deque (A : Type) := { maxlen : Z; elems : list A }.

Arguments maxlen {A} d.
Arguments elems {A} d.

(** [deque(maxlen=n)]: a negative bound raises [ValueError]. *)
Definition deque_new {A} (n : Z) : result (deque A) :=
  if n <? 0 then Raise ValueError
  else Ok {| maxlen := n; elems := [] |}.

(** [d.append(x)]: when the bound is exceeded the leftmost item is dropped. *)
Definition deque_append {A} (x : A) (d : deque A) : deque A :=
  let l := elems d ++ [x] in
  {| maxlen := maxlen d;
     elems := if maxlen d <? Z.of_nat (length l) then tail l else l |}.

(** ** The series store: [PlotextGraph]

    [SerialPlotter] of [serial_plotter.py] keeps the same three fields under
    the names [data], [time_data] and [time_index] and updates them with the
    same statements in [update_plot]. *)

Record PlotextGraph := {
  max_points : Z;
  data_series : gmap pystr (deque (option pyfloat));
  timestamps : deque nat;
  sample_count : nat
}.

(** [PlotextGraph.__init__] *)
Definition PlotextGraph_init (max_points : Z) : result PlotextGraph :=
  ts ← deque_new max_points;
  Ok {| max_points := max_points;
        data_series := ∅;
        timestamps := ts;
        sample_count := 0 |}.

(** [PlotextGraph.add_values] *)
Definition add_values (values : batch) (g : PlotextGraph) : result PlotextGraph :=
  let sample_count' := S (sample_count g) in
  let timestamps' := deque_append sample_count' (timestamps g) in
  ds ← map_fold
        (fun label value acc =>
           ds ← acc;
           ds ← match ds !! label with
                | Some _ => Ok ds
                | None => dq ← deque_new (max_points g); Ok (<[label := dq]> ds)
                end;
           Ok (alter (deque_append (Some value)) label ds))
        (Ok (data_series g)) values;
  (* missing values are filled with None *)
  let ds' :=
    map_imap
      (fun label dq =>
         Some (match values !! label with
               | Some _ => dq
               | None => deque_append None dq
               end))
      ds in
  Ok {| max_points := max_points g;
        data_series := ds';
        timestamps := timestamps';
        sample_count := sample_count' |}.

(** ** The latest values: [CurrentValues] *)

(** [CurrentValues.update_values]: [self.values.update(values)]. *)
Definition update_values (values : batch) (current : batch) : batch :=
  values ∪ current.

(** ** The application *)

Abbreviation time := Q.

(** The lines of the log widget; the texts are abstracted to their kind. *)
Inductive log_entry :=
| LogConnected                       (* "Verbunden mit ..." *)
| LogBlank
| LogConnectError                    (* "Fehler: ..." of connect_serial *)
| LogDisconnected                    (* "Gerät ... getrennt" *)
| LogReconnected                     (* "Wiederverbunden mit ..." *)
| LogLine (t : time) (line : pystr)  (* a received line with its time *)
| LogReadError (e : exn)             (* "Fehler: ..." of the read loop *)
| LogPaused
| LogResumed.

Record Serial := { is_open : bool }.

Record SerialPlotterTUI := {
  serial_conn : option Serial;
  running : bool;
  paused : bool;
  session_data : list (time * pystr * batch);
  all_labels : gset pystr;
  serial_log : list log_entry;
  current_values : batch;
  graph : PlotextGraph
}.

Definition set_serial_conn (c : option Serial) (a : SerialPlotterTUI) :=
  {| serial_conn := c; running := running a; paused := paused a;
     session_data := session_data a; all_labels := all_labels a;
     serial_log := serial_log a; current_values := current_values a;
     graph := graph a |}.

Definition set_serial_log (l : list log_entry) (a : SerialPlotterTUI) :=
  {| serial_conn := serial_conn a; running := running a; paused := paused a;
     session_data := session_data a; all_labels := all_labels a;
     serial_log := l; current_values := current_values a;
     graph := graph a |}.

Definition log_write (e : log_entry) (a : SerialPlotterTUI) :=
  set_serial_log (serial_log a ++ [e]) a.

(** [SerialPlotterTUI.__init__] followed by [compose], which builds the
    widgets. *)
Definition SerialPlotterTUI_init (max_points : Z) : result SerialPlotterTUI :=
  g ← PlotextGraph_init max_points;
  Ok {| serial_conn := None; running := true; paused := false;
        session_data := []; all_labels := ∅;
        serial_log := []; current_values := ∅;
        graph := g |}.

(** [connect_serial()]; [ok] tells whether [serial.Serial(...)] succeeded. *)
Definition connect_serial (ok : bool) (a : SerialPlotterTUI) : SerialPlotterTUI :=
  if ok then
    log_write LogBlank
      (log_write LogConnected (set_serial_conn (Some {| is_open := true |}) a))
  else
    (* an open connection was closed and dropped before the attempt *)
    log_write LogConnectError
      (match serial_conn a with
       | Some _ => set_serial_conn None a
       | None => a
       end).

(** [process_line] *)
Definition process_line (db : UnicodeDB) (now : time) (line : pystr)
    (a : SerialPlotterTUI) : result SerialPlotterTUI :=
  let a := log_write (LogLine now line) a in
  values ← parse_line db line;
  if bool_decide (values = ∅) then Ok a
  else
    g ← add_values values (graph a);
    Ok {| serial_conn := serial_conn a; running := running a; paused := paused a;
          session_data := session_data a ++ [(now, line, values)];
          all_labels := all_labels a ∪ dom values;
          serial_log := serial_log a;
          current_values := update_values values (current_values a);
          graph := g |}.

(** [action_clear]: "Löscht den Log". *)
Definition action_clear (a : SerialPlotterTUI) : SerialPlotterTUI :=
  set_serial_log [] a.

(** [action_pause] *)
Definition action_pause (a : SerialPlotterTUI) : SerialPlotterTUI :=
  let p := negb (paused a) in
  log_write (if p then LogPaused else LogResumed)
    {| serial_conn := serial_conn a; running := running a; paused := p;
       session_data := session_data a; all_labels := all_labels a;
       serial_log := serial_log a; current_values := current_values a;
       graph := graph a |}.

(** [action_quit] *)
Definition action_quit (a : SerialPlotterTUI) : SerialPlotterTUI :=
  {| serial_conn :=
       match serial_conn a with
       | Some _ => Some {| is_open := false |}
       | None => None
       end;
     running := false; paused := paused a;
     session_data := session_data a; all_labels := all_labels a;
     serial_log := serial_log a; current_values := current_values a;
     graph := graph a |}.

(** ** The acquisition loop: [read_serial_loop] *)

Inductive notification := Disconnected | Reconnected.

(** The loop's locals, the application it drives, and the calls of
    [_show_disconnected] and [_show_reconnected] it has handed to the main
    thread so far (a trace of the run, oldest first). *)
Record loop_state := {
  app : SerialPlotterTUI;
  disconnected : bool;
  last_reconnect_attempt : time;
  notifications : list notification
}.

(** What the device does when the loop polls it. *)
Inductive read_outcome :=
| NoData                      (* in_waiting is 0 *)
| Received (raw : pystr)      (* readline().decode(...) *)
| ReadRaises (e : exn).

(** What one iteration observes of the outside world: the clock, whether
    [serial.Serial(...)] would succeed, and the read. *)
Record env := {
  now : time;
  reconnect_ok : bool;
  read : read_outcome
}.

Definition reconnect_interval : time := 1%Q.

Definition show_disconnected (st : loop_state) : loop_state :=
  {| app := log_write LogDisconnected (app st);
     disconnected := disconnected st;
     last_reconnect_attempt := last_reconnect_attempt st;
     notifications := notifications st ++ [Disconnected] |}.

Definition show_reconnected (st : loop_state) : loop_state :=
  {| app := log_write LogReconnected (app st);
     disconnected := disconnected st;
     last_reconnect_attempt := last_reconnect_attempt st;
     notifications := notifications st ++ [Reconnected] |}.

Definition set_disconnected (b : bool) (st : loop_state) : loop_state :=
  {| app := app st; disconnected := b;
     last_reconnect_attempt := last_reconnect_attempt st;
     notifications := notifications st |}.

Definition set_app (a : SerialPlotterTUI) (st : loop_state) : loop_state :=
  {| app := a; disconnected := disconnected st;
     last_reconnect_attempt := last_reconnect_attempt st;
     notifications := notifications st |}.

(** [if not disconnected: disconnected = True; call_from_thread(_show_disconnected)] *)
Definition mark_disconnected (st : loop_state) : loop_state :=
  if disconnected st then st
  else show_disconnected (set_disconnected true st).

(** [_try_reconnect] *)
Definition try_reconnect (ok : bool) (a : SerialPlotterTUI) : bool * SerialPlotterTUI :=
  if ok then (true, set_serial_conn (Some {| is_open := true |}) a)
  else (false, a).

(** The handlers of the [try] around the read. *)
Definition read_handlers (e : exn) (st : loop_state) : loop_state :=
  match e with
  | SerialException | OSError =>
      let st := mark_disconnected st in
      set_app (set_serial_conn None (app st)) st
  | _ => set_app (log_write (LogReadError e) (app st)) st
  end.

(** One turn of [while self.running]. *)
Definition loop_iteration (db : UnicodeDB) (e : env) (st : loop_state) : loop_state :=
  if negb (running (app st)) then st
  else if paused (app st) then st
  else
    match serial_conn (app st) with
    | Some {| is_open := true |} =>
        match read e with
        | NoData => st
        | Received raw =>
            let line := strip db raw in
            if bool_decide (line = []) then st
            else
              match process_line db (now e) line (app st) with
              | Ok a => set_app a st
              | Raise x => read_handlers x st
              end
        | ReadRaises x => read_handlers x st
        end
    | _ =>
        if Qle_bool reconnect_interval (now e - last_reconnect_attempt st) then
          let st :=
            {| app := app st; disconnected := disconnected st;
               last_reconnect_attempt := now e;
               notifications := notifications st |} in
          let st := mark_disconnected st in
          let '(ok, a) := try_reconnect (reconnect_ok e) (app st) in
          if ok then show_reconnected (set_disconnected false (set_app a st))
          else st
        else st
    end.

(** What happens during a session: a turn of the loop, or a key. *)
Inductive event :=
| Iteration (e : env)
| KeyClear
| KeyPause
| KeyQuit.

Definition step (db : UnicodeDB) (ev : event) (st : loop_state) : loop_state :=
  match ev with
  | Iteration e => loop_iteration db e st
  | KeyClear => set_app (action_clear (app st)) st
  | KeyPause => set_app (action_pause (app st)) st
  | KeyQuit => set_app (action_quit (app st)) st
  end.

Definition run (db : UnicodeDB) (evs : list event) (st : loop_state) : loop_state :=
  foldl (fun st ev => step db ev st) st evs.

(** [read_serial_loop] left to itself: its turns for the observations
    [envs], no key being pressed in between. *)
Definition read_serial_loop (db : UnicodeDB) (envs : list env) (st : loop_state) : loop_state :=
  run db (Iteration <$> envs) st.

(** [on_mount]: the first connection attempt, then the loop starts with its
    locals at their initial values. *)
Definition on_mount (connect_ok : bool) (a : SerialPlotterTUI) : loop_state :=
  {| app := connect_serial connect_ok a;
     disconnected := false;
     last_reconnect_attempt := 0%Q;
     notifications := [] |}.

(** * Notions used in the statements *)

(** The last [k] items of a list. *)
Definition lastn {A} (k : nat) (l : list A) : list A := drop (length l - k) l.

(** The series of a name that has just been introduced. *)
Definition empty_series (cap : Z) : deque (option pyfloat) :=
  {| maxlen := cap; elems := [] |}.

(** A fresh store of capacity [cap] fed the batches [bs] in order. *)
Definition run_batches (cap : Z) (bs : list batch) : result PlotextGraph :=
  g ← PlotextGraph_init cap; for_each bs add_values g.




(** The batches of the lines "a:1", "a:2,b:3" and "a:1,b:3". *)
Definition bA1 : batch := {[ str "a" := float_of_Z 1 ]}.

Definition bA2B3 : batch := <[ str "b" := float_of_Z 3 ]> {[ str "a" := float_of_Z 2 ]}.





(** [derives r w gs]: the word [w] is in the language of [r], and matching
    it closes the groups [gs], in this order. *)
Inductive derives : regex -> pystr -> list pystr -> Prop :=
| derives_chr p c : p c = true -> derives (Chr p) [c] []
| derives_opt_none p : derives (Opt p) [] []
| derives_opt_some p c : p c = true -> derives (Opt p) [c] []
| derives_star p w : Forall (fun c => p c = true) w -> derives (Star p) w []
| derives_plus p c w :
    p c = true -> Forall (fun c => p c = true) w -> derives (Plus p) (c :: w) []
| derives_cat r1 r2 w1 w2 g1 g2 :
    derives r1 w1 g1 -> derives r2 w2 g2 -> derives (Cat r1 r2) (w1 ++ w2) (g1 ++ g2)
| derives_grp r w g : derives r w g -> derives (Grp r) w (g ++ [w]).

(** The shape of a token of the number pattern: a sign or none, digits, a
    point or none, and one digit at least. *)
Definition is_number_token (db : UnicodeDB) (w : pystr) : Prop :=
  exists sg ds1 dot c ds2,
    w = sg ++ ds1 ++ dot ++ c :: ds2 /\
    (sg = [] \/ sg = [45%N] \/ sg = [43%N]) /\
    Forall (fun c => isdecimal db c = true) ds1 /\
    (dot = [] \/ dot = [46%N]) /\
    isdecimal db c = true /\
    Forall (fun c => isdecimal db c = true) ds2.


(** The token the positional grammar reads in field [i], if any. *)
Definition field_token (db : UnicodeDB) (parts : list pystr) (i : nat) : option pystr :=
  parts !! i ≫= search (number_pattern db).

(** The text left after the run of [p]-characters at its head. *)
Fixpoint skip_run (p : N -> bool) (s : pystr) : pystr :=
  match s with
  | c :: s' => if p c then skip_run p s' else s
  | [] => []
  end.

(** The fields put back together around the separators. *)
Fixpoint join_fields (fs seps : list pystr) : pystr :=
  match fs, seps with
  | f :: fs', sp :: seps' => f ++ sp ++ join_fields fs' seps'
  | f :: _, [] => f
  | [], _ => []
  end.

(** [fs] are the fields of [s] for the separator class [p]: [s] is the
    fields joined by non-empty runs of separators, no field holds a
    separator, and only the first and the last field can be empty. *)
Definition fields_of (p : N -> bool) (s : pystr) (fs : list pystr) : Prop :=
  exists seps,
    length fs = S (length seps) /\
    s = join_fields fs seps /\
    Forall (fun sp => sp <> [] /\ Forall (fun c => p c = true) sp) seps /\
    Forall (Forall (fun c => p c = false)) fs /\
    (forall i, (0 < i < length seps)%nat -> fs !! i <> Some []).

Definition batch_ch1_ch3 : batch :=
  <[ str "CH1" := float_of_Z 10 ]> {[ str "CH3" := float_of_Z 30 ]}.

Definition batch_kanal1_kanal3 : batch :=
  <[ str "Kanal_1" := float_of_Z 10 ]> {[ str "Kanal_3" := float_of_Z 30 ]}.


Definition batch_10_20 : batch := {[ str "10" := float_of_Z 20 ]}.

(** The ASCII digits [0] to [9]. *)
Definition ascii_digit (c : N) : bool := in_range 48 57 c.

(** The exceptions the read loop takes for a lost link. *)
Definition is_link_error (x : exn) : bool :=
  match x with
  | SerialException | OSError => true
  | _ => false
  end.

(** A fresh application with a window of 100 points. *)
Definition fresh_app : SerialPlotterTUI :=
  {| serial_conn := None; running := true; paused := false;
     session_data := []; all_labels := ∅; serial_log := []; current_values := ∅;
     graph := {| max_points := 100; data_series := ∅;
                 timestamps := {| maxlen := 100; elems := [] |};
                 sample_count := 0 |} |}.

Definition batch_temp_humidity : batch :=
  <[ str "humidity" := float_of_Z 60 ]> {[ str "temp" := float_of_ratio 255 1 ]}.

Definition batch_pi : batch := {[ str "CH1" := float_of_ratio 314 2 ]}.

Definition batch_10_20_30 : batch :=
  <[ str "CH3" := float_of_Z 30 ]>
    (<[ str "CH2" := float_of_Z 20 ]> {[ str "CH1" := float_of_Z 10 ]}).

(** * More of the code: drawing, export and colours *)

(** ** Drawing: [PlotextGraph.render] and the lines of [SerialPlotter.update_plot]

    The calls into plotext and matplotlib, the widget sizes and the average
    of the statistics header are left out; what is kept is the data handed
    over: the points of each series and its current value. *)

(** The loop that drops the missing slots, in [PlotextGraph.render] and in
    [SerialPlotter.update_plot]:
    [for xi, yi in zip(x, y): if yi is not None: valid_x.append(xi); valid_y.append(yi)].
    The two lists are kept as one list of points. *)
Definition valid_points (x : list nat) (y : list (option pyfloat)) : list (nat * pyfloat) :=
  omap (fun p : nat * option pyfloat =>
          match p.2 with Some yi => Some (p.1, yi) | None => None end)
       (zip x y).

(** What [PlotextGraph.render] hands to plotext and to the statistics header. *)
Inductive rendering :=
| WaitingForData
| Plotted (series : gmap pystr (list (nat * pyfloat) * pyfloat)).

(** The points of one series and its "current" value [valid_y[-1]]; nothing
    when no slot holds a value ([if valid_x and valid_y]). *)
Definition render_series (x : list nat) (data : deque (option pyfloat)) :
    option (list (nat * pyfloat) * pyfloat) :=
  let pts := valid_points x (elems data) in
  match last pts with
  | Some p => Some (pts, p.2)
  | None => None
  end.

(** [PlotextGraph.render], up to the drawing itself. *)
Definition render (g : PlotextGraph) : rendering :=
  if bool_decide (data_series g = ∅) || bool_decide (elems (timestamps g) = [])
  then WaitingForData
  else
    let x := elems (timestamps g) in
    Plotted (omap (render_series x) (data_series g)).

(** The data [SerialPlotter.update_plot] sets on the line of [label]:
    [x_data = list(self.time_data)[-len(self.data[label]):]]. *)
Definition line_data (g : PlotextGraph) (label : pystr) : option (list (nat * pyfloat)) :=
  match data_series g !! label with
  | Some dq =>
      if (0 <? length (elems dq))%nat then
        let x_data := lastn (length (elems dq)) (elems (timestamps g)) in
        Some (valid_points x_data (elems dq))
      else None
  | None => None
  end.




(** ** The export: [action_save_csv]

    The table is kept as [csv.DictWriter] receives it; the formatting of the
    cells by [csv] and the file itself are left out. *)

(** The order of [str]: lexicographic on the code points. *)
Fixpoint str_leb (s1 s2 : pystr) : bool :=
  match s1, s2 with
  | [], _ => true
  | _ :: _, [] => false
  | c1 :: r1, c2 :: r2 =>
      if (c1 <? c2)%N then true
      else if (c2 <? c1)%N then false
      else str_leb r1 r2
  end.

Definition str_le (s1 s2 : pystr) : Prop := str_leb s1 s2 = true.

#[global] Instance str_le_dec : RelDecision str_le :=
  fun s1 s2 => decide (str_leb s1 s2 = true).

(** [sorted(labels)] for a set of strings. *)
Definition sorted (labels : gset pystr) : list pystr :=
  merge_sort str_le (elements labels).

(** A value of the dicts of [session_data], before [csv] formats it. *)
Inductive cell :=
| CellTime (t : time)        (* datetime.now().isoformat() *)
| CellStr (s : pystr)
| CellFloat (v : pyfloat).

(** The dict [process_line] appends:
    [{'timestamp': ..., 'raw_line': line, **values}]. *)
Definition data_point (row : time * pystr * batch) : gmap pystr cell :=
  (CellFloat <$> row.2) ∪
  <[str "raw_line" := CellStr row.1.2]> {[ str "timestamp" := CellTime row.1.1 ]}.

(** What [action_save_csv] does: a warning, the table handed to
    [csv.DictWriter] (the field names, then one row of cells per data
    point), or the error notification of its [except]. *)
Inductive save_result :=
| NothingToSave
| Saved (fieldnames : list pystr) (rows : list (list cell))
| SaveFailed.

(** [action_save_csv]; [io_ok] tells whether the file could be opened and
    written. *)
Definition action_save_csv (io_ok : bool) (a : SerialPlotterTUI) : save_result :=
  match session_data a with
  | [] => NothingToSave
  | _ :: _ =>
      let fieldnames := [str "timestamp"; str "raw_line"] ++ sorted (all_labels a) in
      if io_ok then
        Saved fieldnames
          ((fun dp => (fun key => default (CellStr []) (data_point dp !! key))
                        <$> fieldnames)
             <$> session_data a)
      else SaveFailed
  end.

(** ** Colours: [int(s, 16)] and [hex_to_rgb] *)

(** [str.lstrip(chars)] *)
Fixpoint lstrip_chars (chars s : pystr) : pystr :=
  match s with
  | c :: s' => if bool_decide (c ∈ chars) then lstrip_chars chars s' else s
  | [] => []
  end.

(** [_PyUnicode_TransformDecimalAndSpaceToASCII]: an ASCII string is left as
    it is; in another one the spaces become [' '], the decimal digits their
    ASCII digit, and the text ends with ['?'] at the first other character
    from 127 on. *)
Fixpoint transform_decimal_and_space (db : UnicodeDB) (s : pystr) : pystr :=
  match s with
  | [] => []
  | c :: s' =>
      if (c <? 127)%N then c :: transform_decimal_and_space db s'
      else if isspace db c then 32%N :: transform_decimal_and_space db s'
      else
        match todecimal db c with
        | Some d => (48 + d)%N :: transform_decimal_and_space db s'
        | None => [63%N]
        end
  end.

Definition to_ascii_decimal (db : UnicodeDB) (s : pystr) : pystr :=
  if forallb (fun c => c <? 128)%N s then s
  else transform_decimal_and_space db s.

(** [_PyLong_DigitValue]: the value of a digit in the bases up to 36, and
    37 for every other character. *)
Definition digit_value (c : N) : Z :=
  if in_range 48 57 c then Z.of_N c - 48
  else if in_range 97 122 c then Z.of_N c - 97 + 10
  else if in_range 65 90 c then Z.of_N c - 65 + 10
  else 37.

(** [Py_ISSPACE] *)
Definition is_c_space (c : N) : bool := in_range 9 13 c || (c =? 32)%N.

Fixpoint skip_c_space (s : pystr) : pystr :=
  match s with
  | c :: s' => if is_c_space c then skip_c_space s' else s
  | [] => []
  end.

(** The scan of [long_from_binary_base]: digits with single underscores
    between them; the value read (onto [acc]) and the text left.  [prev] is
    the character before. *)
Fixpoint scan_digits (base : Z) (s : pystr) (prev : N) (acc : Z) : result (Z * pystr) :=
  let stop := if (prev =? 95)%N then Raise ValueError else Ok (acc, s) in
  match s with
  | c :: s' =>
      if (c =? 95)%N then
        if (prev =? 95)%N then Raise ValueError
        else scan_digits base s' c acc
      else if digit_value c <? base then
        scan_digits base s' c (acc * base + digit_value c)
      else stop
  | [] => stop
  end.

(** [PyLong_FromString(s, base=16)]: blanks, a sign, the prefix [0x], the
    digits, blanks, and nothing else. *)
Definition PyLong_FromString16 (s : pystr) : result Z :=
  let s := skip_c_space s in
  let '(sign, s) :=
    match s with
    | c :: s' =>
        if (c =? 43)%N then (1, s')
        else if (c =? 45)%N then (-1, s')
        else (1, s)
    | [] => (1, s)
    end in
  let s :=
    match s with
    | c0 :: c1 :: s' =>
        if (c0 =? 48)%N && ((c1 =? 120)%N || (c1 =? 88)%N) then
          (* one underscore is allowed after the prefix *)
          match s' with
          | c2 :: s'' => if (c2 =? 95)%N then s'' else s'
          | [] => s'
          end
        else s
    | _ => s
    end in
  if bool_decide (head s = Some 95%N) then Raise ValueError
  else
    '(z, rest) ← scan_digits 16 s 0 0;
    if bool_decide (rest = s) then Raise ValueError
    else if bool_decide (skip_c_space rest = []) then Ok (sign * z)
    else Raise ValueError.

(** [int(s, 16)] for a [str]. *)
Definition py_int16 (db : UnicodeDB) (s : pystr) : result Z :=
  PyLong_FromString16 (to_ascii_decimal db s).

Abbreviation rgb := (Z * Z * Z)%type.

(** [hex_to_rgb] *)
Definition hex_to_rgb (db : UnicodeDB) (hex_color : pystr) : result (option rgb) :=
  if bool_decide (hex_color = []) || bool_decide (hex_color = str "None") then Ok None
  else
    let hex_color := lstrip_chars (str "#") hex_color in
    if (length hex_color =? 6)%nat then
      r ← py_int16 db (take 2 hex_color);
      g ← py_int16 db (take 2 (drop 2 hex_color));
      b ← py_int16 db (take 2 (drop 4 hex_color));
      Ok (Some (r, g, b))
    else Ok None.

(** ** The colours of the theme: [_get_theme_colors], [_get_colors] *)

Definition PLOTEXT_COLORS_DARK : list rgb :=
  [(84, 239, 174); (68, 180, 255); (252, 213, 121);
   (191, 121, 252); (255, 73, 112); (172, 207, 231)].

Definition PLOTEXT_COLORS_LIGHT : list rgb :=
  [(0, 150, 80); (0, 100, 200); (180, 140, 0);
   (130, 50, 180); (200, 30, 60); (50, 100, 150)].

Definition RICH_COLORS_DARK : list pystr :=
  [str "green"; str "cyan"; str "yellow"; str "magenta"; str "red"; str "blue"].

Definition RICH_COLORS_LIGHT : list pystr :=
  [str "dark_green"; str "blue"; str "dark_orange"; str "dark_magenta";
   str "dark_red"; str "dark_cyan"].

(** What the widgets read of a Textual theme; a colour is a string or
    [None]. *)
Record Theme := {
  dark : bool;
  background : option pystr;
  surface : option pystr;
  foreground : option pystr;
  success : option pystr;
  primary : option pystr;
  warning : option pystr;
  accent : option pystr;
  error : option pystr;
  secondary : option pystr
}.

(** The dict [_get_theme_colors] returns. *)
Record theme_cfg := {
  is_dark : bool;
  canvas_color : rgb;
  axes_color : rgb;
  ticks_color : rgb;
  plot_colors : list rgb;
  rich_colors : list pystr
}.

(** [if color:] for a string or [None]. *)
Definition truthy (color : option pystr) : option pystr :=
  match color with
  | Some (c :: s) => Some (c :: s)
  | _ => None
  end.

(** The body of the loop over the six colour attributes. *)
Definition plot_color_body (db : UnicodeDB) (color : option pystr)
    (plot_colors : list rgb) : result (list rgb) :=
  match truthy color with
  | Some c =>
      rgb ← hex_to_rgb db c;
      Ok (match rgb with
          | Some t => plot_colors ++ [t]
          | None => plot_colors
          end)
  | None => Ok plot_colors
  end.

(** The [try] block of [_get_theme_colors] for a theme. *)
Definition theme_colors_try (db : UnicodeDB) (theme : Theme) : result theme_cfg :=
  let is_dark := dark theme in
  let default_bg : rgb := if is_dark then (10, 14, 27) else (250, 250, 250) in
  let default_fg : rgb := if is_dark then (200, 200, 200) else (50, 50, 50) in
  bg_rgb ← match truthy (background theme) with
           | Some c => hex_to_rgb db c
           | None => Ok (Some default_bg)
           end;
  surface_rgb ← match truthy (surface theme) with
                | Some c => hex_to_rgb db c
                | None => Ok bg_rgb
                end;
  fg_rgb ← match truthy (foreground theme) with
           | Some c => hex_to_rgb db c
           | None => Ok (Some default_fg)
           end;
  plot_colors ← for_each
                   [success theme; primary theme; warning theme;
                    accent theme; error theme; secondary theme]
                   (plot_color_body db) [];
  let plot_colors :=
    match plot_colors with
    | [] => if is_dark then PLOTEXT_COLORS_DARK else PLOTEXT_COLORS_LIGHT
    | _ :: _ => plot_colors
    end in
  Ok {| is_dark := is_dark;
        canvas_color := default default_bg bg_rgb;
        axes_color := default (default default_bg bg_rgb) surface_rgb;
        ticks_color := default default_fg fg_rgb;
        plot_colors := plot_colors;
        rich_colors := if is_dark then RICH_COLORS_DARK else RICH_COLORS_LIGHT |}.

Definition fallback_colors : theme_cfg :=
  {| is_dark := true;
     canvas_color := (10, 14, 27);
     axes_color := (10, 14, 27);
     ticks_color := (133, 159, 213);
     plot_colors := PLOTEXT_COLORS_DARK;
     rich_colors := RICH_COLORS_DARK |}.

(** [PlotextGraph._get_theme_colors]; [current_theme] is what reading
    [self.app.current_theme] gives. *)
Definition get_theme_colors (db : UnicodeDB) (current_theme : result (option Theme)) :
    theme_cfg :=
  match current_theme with
  | Ok (Some theme) =>
      match theme_colors_try db theme with
      | Ok cfg => cfg
      | Raise _ => fallback_colors
      end
  | _ => fallback_colors
  end.

(** [CurrentValues._get_colors] *)
Definition get_colors (current_theme : result (option Theme)) : list pystr :=
  match current_theme with
  | Ok (Some theme) => if dark theme then RICH_COLORS_DARK else RICH_COLORS_LIGHT
  | _ => RICH_COLORS_DARK
  end.

(** ** The graph modes: [toggle_mode] *)

Definition GRAPH_MODE_LINE : pystr := str "line".

Definition GRAPH_MODE_BAR : pystr := str "bar".

Definition GRAPH_MODE_SCATTER : pystr := str "scatter".

(** [list.index(x)] *)
Fixpoint list_index (x : pystr) (l : list pystr) : result nat :=
  match l with
  | [] => Raise ValueError
  | y :: l' => if bool_decide (y = x) then Ok 0%nat else i ← list_index x l'; Ok (S i)
  end.

(** [PlotextGraph.toggle_mode]: the new value of [self.graph_mode]. *)
Definition toggle_mode (graph_mode : pystr) : result pystr :=
  let modes := [GRAPH_MODE_LINE; GRAPH_MODE_BAR; GRAPH_MODE_SCATTER] in
  current_idx ← list_index graph_mode modes;
  match modes !! ((current_idx + 1) mod length modes)%nat with
  | Some mode => Ok mode
  | None => Raise OtherException     (* IndexError *)
  end.

(** ** The store of the older TUI: [AsciiGraph] of [serial_plotter_tui.py] *)




(** ** Notions used in the statements about them *)

(** What a session has recorded: the store, the latest values, the rows kept
    for the export and the names seen. *)
Definition recorded (a : SerialPlotterTUI) :
    PlotextGraph * batch * list (time * pystr * batch) * gset pystr :=
  (graph a, current_values a, session_data a, all_labels a).

(** The connection is there and open. *)
Definition connected (a : SerialPlotterTUI) : bool :=
  match serial_conn a with
  | Some {| is_open := true |} => true
  | _ => false
  end.

(** A row of the session data holds what [parse_line] reads in its line. *)
Definition row_faithful (db : UnicodeDB) (row : time * pystr * batch) : Prop :=
  parse_line db row.1.2 = Ok row.2 /\ row.2 <> ∅.

(* notions *)
(** The three places that know the names of a session agree, and the export
    holds one faithful row per tick. *)
Definition session_consistent (db : UnicodeDB) (a : SerialPlotterTUI) : Prop :=
  all_labels a = dom (current_values a) /\
  all_labels a = dom (data_series (graph a)) /\
  sample_count (graph a) = length (session_data a) /\
  Forall (row_faithful db) (session_data a).

(** The names of every recorded row are among the known names. *)
Definition rows_known (a : SerialPlotterTUI) : Prop :=
  Forall (fun row : time * pystr * batch => dom row.2 ⊆ all_labels a) (session_data a).

(** The cell of the column [key] in the row of a data point: the value
    the line gave to [key]; else the time or the line in the columns of
    these names; else the empty string. *)
Definition expected_cell (row : time * pystr * batch) (key : pystr) : cell :=
  match row.2 !! key with
  | Some v => CellFloat v
  | None =>
      if bool_decide (key = str "timestamp") then CellTime row.1.1
      else if bool_decide (key = str "raw_line") then CellStr row.1.2
      else CellStr []
  end.

(** The hexadecimal digits of ASCII, in either case. *)
Definition is_hex_digit (c : N) : bool :=
  in_range 48 57 c || in_range 97 102 c || in_range 65 70 c.

(** The byte two hexadecimal digits spell. *)
Definition hex_byte (h1 h2 : N) : Z := 16 * digit_value h1 + digit_value h2.

(** The nine colour attributes [_get_theme_colors] converts. *)
Definition theme_colours (theme : Theme) : list (option pystr) :=
  [background theme; surface theme; foreground theme; success theme;
   primary theme; warning theme; accent theme; error theme; secondary theme].

Definition rgb_in_range (c : rgb) : Prop :=
  -15 <= c.1.1 <= 255 /\ -15 <= c.1.2 <= 255 /\ -15 <= c.2 <= 255.


Definition env_a1 : env :=
  {| now := 5%Q; reconnect_ok := true; read := Received (str "a:1") |}.

Definition env_unplugged : env :=
  {| now := 6%Q; reconnect_ok := false; read := ReadRaises OSError |}.

Definition env_replugged : env :=
  {| now := 7%Q; reconnect_ok := true; read := NoData |}.

Definition env_timestamp_5 : env :=
  {| now := 5%Q; reconnect_ok := true; read := Received (str "timestamp:5") |}.

(** A light theme whose background is the colour name "yellow". *)
Definition theme_yellow : Theme :=
  {| dark := false; background := Some (str "yellow"); surface := None;
     foreground := None; success := None; primary := Some (str "#0178D4");
     warning := None; accent := None; error := None; secondary := None |}.

(** * Properties *)

(** ** The result monad *)

Lemma for_each_app {A S} (l1 l2 : list A) (body : A -> S -> result S) (s : S) :
  for_each (l1 ++ l2) body s = (s' ← for_each l1 body s; for_each l2 body s').
Proof.
  revert s. induction l1 as [|a l1 IH]; intros s; simpl; [done|].
  destruct (body a s) as [s'|e]; simpl; [apply IH | done].
Qed.

(** ** Bounded deques *)





(** ** The store *)

(** What one update does to every series. *)
Lemma add_values_spec (values : batch) (g : PlotextGraph) :
  0 <= max_points g ->
  exists g',
    add_values values g = Ok g' /\
    max_points g' = max_points g /\
    sample_count g' = S (sample_count g) /\
    timestamps g' = deque_append (S (sample_count g)) (timestamps g) /\
    forall name,
      data_series g' !! name =
      match values !! name with
      | Some v =>
          Some (deque_append (Some v)
                  (default (empty_series (max_points g)) (data_series g !! name)))
      | None => deque_append None <$> data_series g !! name
      end.
Proof.
  intros Hcap. unfold add_values.
  set (f := fun (label : pystr) (value : pyfloat) acc => _).
  assert (Hfold : exists ds,
    map_fold f (Ok (data_series g)) values = Ok ds /\
    forall name,
      ds !! name =
      match values !! name with
      | Some v =>
          Some (deque_append (Some v)
                  (default (empty_series (max_points g)) (data_series g !! name)))
      | None => data_series g !! name
      end).
  { apply (map_fold_weak_ind
      (fun r (m : batch) => exists ds, r = Ok ds /\
         forall name, ds !! name =
           match m !! name with
           | Some v =>
               Some (deque_append (Some v)
                       (default (empty_series (max_points g)) (data_series g !! name)))
           | None => data_series g !! name
           end)).
    - exists (data_series g). split; [done|]. intros name. by rewrite lookup_empty.
    - intros label value m r Hfresh (ds & -> & Hds). subst f. simpl.
      pose proof (Hds label) as Hl. rewrite Hfresh in Hl.
      destruct (ds !! label) as [dq|] eqn:Hdq; simpl.
      + eexists. split; [done|]. intros name.
        rewrite lookup_alter.
        destruct (decide (label = name)) as [<-|Hne].
        * rewrite lookup_insert_eq, Hdq, <- Hl. done.
        * rewrite lookup_insert_ne by done. apply Hds.
      + unfold deque_new. destruct (Z.ltb_spec (max_points g) 0) as [?|_]; [lia|].
        simpl. eexists. split; [done|]. intros name.
        rewrite lookup_alter.
        destruct (decide (label = name)) as [<-|Hne].
        * rewrite !lookup_insert_eq, <- Hl. done.
        * rewrite !lookup_insert_ne by done. apply Hds. }
  destruct Hfold as (ds & -> & Hds). simpl.
  eexists. split; [done|]. simpl. repeat split.
  intros name. rewrite map_lookup_imap, Hds.
  destruct (values !! name) as [v|]; simpl; [done|].
  by destruct (data_series g !! name).
Qed.














(** ** The application: clearing, and the latest values *)

Lemma C7_counterexample :
  exists a0 a1 dq,
    SerialPlotterTUI_init 100 = Ok a0 /\
    process_line ascii_db 0%Q (str "a:1") a0 = Ok a1 /\
    sample_count (graph (action_clear a1)) = 1%nat /\
    data_series (graph (action_clear a1)) !! str "a" = Some dq /\
    elems dq = [Some (float_of_Z 1)].
Proof.
  eexists _, _, _.
  split; [vm_compute; reflexivity|].
  split; [vm_compute; reflexivity|].
  split; [reflexivity|]. split; vm_compute; reflexivity.
Qed.

(** C7 (amended): the explicit clear operation empties the log widget and
    nothing else: every series, the tick counter and the set of known names
    of the store are left as they were, and so are the latest values and the
    session data. *)
Theorem action_clear_only_log (a : SerialPlotterTUI) :
  serial_log (action_clear a) = [] /\
  graph (action_clear a) = graph a /\
  current_values (action_clear a) = current_values a /\
  session_data (action_clear a) = session_data a /\
  all_labels (action_clear a) = all_labels a /\
  serial_conn (action_clear a) = serial_conn a /\
  running (action_clear a) = running a /\
  paused (action_clear a) = paused a.
Proof. by repeat split. Qed.

Lemma update_values_lookup (values current : batch) (name : pystr) :
  update_values values current !! name =
  match values !! name with
  | Some v => Some v
  | None => current !! name
  end.
Proof.
  unfold update_values. rewrite lookup_union.
  by destruct (values !! name), (current !! name).
Qed.

Lemma process_line_current_values (db : UnicodeDB) (t : time) (line : pystr)
    (a : SerialPlotterTUI) :
  match process_line db t line a with
  | Ok a' =>
      exists values,
        parse_line db line = Ok values /\
        forall name,
          current_values a' !! name =
          match values !! name with
          | Some v => Some v
          | None => current_values a !! name
          end
  | Raise _ => True
  end.
Proof.
  unfold process_line.
  destruct (parse_line db line) as [values|e]; simpl; [|done].
  case_bool_decide as Hempty.
  - exists values. split; [done|]. intros name. subst values.
    by rewrite lookup_empty.
  - destruct (add_values values _) as [g|e]; simpl; [|done].
    exists values. split; [done|]. intros name. apply update_values_lookup.
Qed.

Lemma process_line_current_values_dom (db : UnicodeDB) (t : time) (line : pystr)
    (a a' : SerialPlotterTUI) :
  process_line db t line a = Ok a' ->
  dom (current_values a) ⊆ dom (current_values a').
Proof.
  intros H. pose proof (process_line_current_values db t line a) as Hp.
  rewrite H in Hp. destruct Hp as (values & _ & Hl).
  intros name. rewrite !elem_of_dom, Hl.
  by destruct (values !! name).
Qed.

Lemma read_handlers_current_values (e : exn) (st : loop_state) :
  current_values (app (read_handlers e st)) = current_values (app st).
Proof.
  unfold read_handlers, mark_disconnected.
  destruct e, (disconnected st); reflexivity.
Qed.

Lemma step_current_values_dom (db : UnicodeDB) (ev : event) (st : loop_state) :
  dom (current_values (app st)) ⊆ dom (current_values (app (step db ev st))).
Proof.
  destruct ev as [e| | |]; simpl; try done.
  unfold loop_iteration.
  destruct (running (app st)); simpl; [|done].
  destruct (paused (app st)); [done|].
  destruct (serial_conn (app st)) as [[[|]]|].
  - destruct (read e) as [|raw|x]; [done| |by rewrite read_handlers_current_values].
    case_bool_decide; [done|].
    destruct (process_line _ _ _ _) as [a'|x] eqn:Hp.
    + simpl. by eapply process_line_current_values_dom.
    + by rewrite read_handlers_current_values.
  - destruct (Qle_bool _ _); [|done].
    unfold mark_disconnected, try_reconnect. simpl.
    by destruct (disconnected st), (reconnect_ok e).
  - destruct (Qle_bool _ _); [|done].
    unfold mark_disconnected, try_reconnect. simpl.
    by destruct (disconnected st), (reconnect_ok e).
Qed.

(** C9: the latest-values display merges each batch with dict-update
    semantics (a name of the batch shows the batch's value, any other name
    keeps the value it had), and over a whole session, whatever the lines
    received and the keys pressed, a name once shown is never removed: the
    set of displayed names only grows. *)
Theorem latest_values_only_grow (db : UnicodeDB) (evs : list event) (st : loop_state) :
  (forall values current name,
     update_values values current !! name =
     match values !! name with
     | Some v => Some v
     | None => current !! name
     end) /\
  (forall t line,
     match process_line db t line (app st) with
     | Ok a' =>
         exists values,
           parse_line db line = Ok values /\
           forall name,
             current_values a' !! name =
             match values !! name with
             | Some v => Some v
             | None => current_values (app st) !! name
             end
     | Raise _ => True
     end) /\
  dom (current_values (app st)) ⊆ dom (current_values (app (run db evs st))).
Proof.
  split; [apply update_values_lookup|].
  split; [intros; apply process_line_current_values|].
  revert st. induction evs as [|ev evs IH]; intros st; simpl; [done|].
  etrans; [apply (step_current_values_dom db ev)|apply IH].
Qed.

(** ** The acquisition loop *)







(** ** The regular-expression matcher *)

Lemma orelse_Some {A} (x y : option A) (a : A) :
  orelse x y = Some a -> x = Some a \/ y = Some a.
Proof. destruct x; simpl; auto. Qed.

Lemma star_sound {A} (p : N -> bool) (s : pystr) (k : pystr -> option A) (res : A) :
  star p s k = Some res ->
  exists w s', s = w ++ s' /\ Forall (fun c => p c = true) w /\ k s' = Some res.
Proof.
  induction s as [|c s IH]; simpl; intros H.
  - by exists [], [].
  - destruct (p c) eqn:Hc.
    + apply orelse_Some in H as [H|H].
      * destruct (IH H) as (w & s' & -> & Hw & Hk).
        exists (c :: w), s'. repeat split; [by constructor|done].
      * by exists [], (c :: s).
    + by exists [], (c :: s).
Qed.

Lemma consumed_app (w s' : pystr) : take (length (w ++ s') - length s') (w ++ s') = w.
Proof.
  rewrite length_app.
  replace (length w + length s' - length s')%nat with (length w) by lia.
  by rewrite take_app_length.
Qed.

Lemma mtch_sound {A} (r : regex) (s : pystr) (caps : list pystr)
    (k : pystr -> list pystr -> option A) (res : A) :
  mtch r s caps k = Some res ->
  exists w s' gs,
    s = w ++ s' /\ derives r w gs /\ k s' (caps ++ gs) = Some res.
Proof.
  revert s caps k. induction r as [p|p|p|p|r1 IH1 r2 IH2|r1 IH1];
    intros s caps k H; simpl in H.
  - destruct s as [|c s]; [done|]. destruct (p c) eqn:Hc; [|done].
    exists [c], s, []. rewrite app_nil_r. repeat split; [by constructor|done].
  - assert (Hnone : k s caps = Some res ->
      exists w s' gs, s = w ++ s' /\ derives (Opt p) w gs /\
                      k s' (caps ++ gs) = Some res).
    { intros Hk. exists [], s, []. rewrite app_nil_r.
      repeat split; [constructor|done]. }
    destruct s as [|c s]; [auto|]. destruct (p c) eqn:Hc; [|auto].
    apply orelse_Some in H as [H|H]; [|auto].
    exists [c], s, []. rewrite app_nil_r. repeat split; [by constructor|done].
  - apply star_sound in H as (w & s' & -> & Hw & Hk).
    exists w, s', []. rewrite app_nil_r. repeat split; [by constructor|done].
  - destruct s as [|c s]; [done|]. destruct (p c) eqn:Hc; [|done].
    apply star_sound in H as (w & s' & -> & Hw & Hk).
    exists (c :: w), s', []. rewrite app_nil_r.
    repeat split; [by constructor|done].
  - apply IH1 in H as (w1 & s1 & g1 & -> & H1 & H).
    apply IH2 in H as (w2 & s2 & g2 & -> & H2 & H).
    exists (w1 ++ w2), s2, (g1 ++ g2).
    split; [by rewrite app_assoc|]. split; [by constructor|].
    by rewrite app_assoc.
  - apply IH1 in H as (w & s' & g & -> & Hd & H).
    rewrite consumed_app in H.
    exists w, s', (g ++ [w]).
    split; [done|]. split; [by constructor|].
    by rewrite app_assoc.
Qed.

Lemma match_here_sound (r : regex) (s rest : pystr) (caps : list pystr) :
  match_here r s = Some (rest, caps) ->
  exists w, s = w ++ rest /\ derives r w caps /\ consumed s rest = w.
Proof.
  intros H. apply mtch_sound in H as (w & s' & gs & -> & Hd & [= <- <-]).
  exists w. repeat split; [done|]. apply consumed_app.
Qed.

(** Every tuple of [findall] is the groups of a match somewhere in the text. *)
Lemma findall_from_sound (r : regex) (s : pystr) (skip : nat) (caps : list pystr) :
  caps ∈ findall_from r s skip -> exists w, derives r w caps.
Proof.
  revert skip. induction s as [|c s IH]; intros skip; destruct skip as [|n]; simpl.
  - destruct (match_here r []) as [[rest gs]|] eqn:Hm; [|by intros ?%elem_of_nil].
    intros ->%list_elem_of_singleton.
    apply match_here_sound in Hm as (w & _ & Hd & _). by exists w.
  - by intros ?%elem_of_nil.
  - destruct (match_here r (c :: s)) as [[rest gs]|] eqn:Hm; [|by apply IH].
    intros [->|Hin]%elem_of_cons; [|by eapply IH].
    apply match_here_sound in Hm as (w & _ & Hd & _). by exists w.
  - apply IH.
Qed.

(** The match of [search] is a substring of the text in the language, and
    the pattern matches at no position before it. *)
Lemma search_sound (r : regex) (s tok : pystr) :
  search r s = Some tok ->
  exists pre post gs,
    s = pre ++ tok ++ post /\ derives r tok gs /\
    forall k, (k < length pre)%nat -> match_here r (drop k s) = None.
Proof.
  induction s as [|c s IH]; simpl.
  - destruct (match_here r []) as [[rest gs]|] eqn:Hm; [|done].
    intros [= <-]. apply match_here_sound in Hm as (w & Hs & Hd & ->).
    exists [], rest, gs. repeat split; [done..|]. simpl. lia.
  - destruct (match_here r (c :: s)) as [[rest gs]|] eqn:Hm.
    + intros [= <-]. apply match_here_sound in Hm as (w & Hs & Hd & ->).
      exists [], rest, gs. repeat split; [done..|]. simpl. lia.
    + intros (pre & post & gs & -> & Hd & Hleft)%IH.
      exists (c :: pre), post, gs. repeat split; [done..|].
      intros [|k] Hk; simpl in *; [done|]. apply Hleft. lia.
Qed.

(** ** Rounding never yields a NaN *)

Lemma iter_pos_invariant {A} (P : A -> Prop) (f : A -> A) (p : positive) (x : A) :
  (forall y, P y -> P (f y)) -> P x -> P (SpecFloat.iter_pos f p x).
Proof.
  intros Hf. revert x. induction p as [p IH|p IH|]; intros x Hx; simpl; auto.
Qed.

Lemma shr_1_nonneg (mrs : shr_record) : 0 <= shr_m mrs -> 0 <= shr_m (shr_1 mrs).
Proof. destruct mrs as [[|[p|p|]|p] r s]; simpl; lia. Qed.

Lemma shr_nonneg (mrs : shr_record) (e n : Z) :
  0 <= shr_m mrs -> 0 <= shr_m (fst (shr mrs e n)).
Proof.
  intros H. destruct n as [|p|p]; simpl; [done| |done].
  by apply (iter_pos_invariant (fun y => 0 <= shr_m y)); [apply shr_1_nonneg|].
Qed.

Lemma shr_fexp_nonneg (m e : Z) (l : location) :
  0 <= m -> 0 <= shr_m (fst (shr_fexp prec emax m e l)).
Proof.
  intros H. unfold shr_fexp. apply shr_nonneg.
  by destruct l as [|[]].
Qed.

Lemma round_nearest_even_nonneg (m : Z) (l : location) :
  0 <= m -> 0 <= round_nearest_even m l.
Proof.
  intros H. destruct l as [|[]]; simpl; try lia.
  destruct (Z.even m); lia.
Qed.

Lemma binary_round_aux_not_nan (sx : bool) (mx ex : Z) (lx : location) :
  0 <= mx -> is_nan (binary_round_aux prec emax sx mx ex lx) = false.
Proof.
  intros H. unfold binary_round_aux.
  pose proof (shr_fexp_nonneg mx ex lx H) as H1.
  destruct (shr_fexp prec emax mx ex lx) as [mrs' e']. simpl in H1.
  pose proof (shr_fexp_nonneg
    (round_nearest_even (shr_m mrs') (loc_of_shr_record mrs')) e' loc_Exact
    (round_nearest_even_nonneg _ _ H1)) as H2.
  destruct (shr_fexp prec emax _ e' loc_Exact) as [mrs'' e'']. simpl in H2.
  destruct (shr_m mrs'') as [|m|m]; [done| |lia].
  by destruct (e'' <=? emax - prec).
Qed.

Lemma float_of_decimal_not_nan (neg : bool) (m : Z) (k : nat) :
  0 <= m -> is_nan (float_of_decimal neg m k) = false.
Proof.
  intros H. unfold float_of_decimal. destruct m as [|m|m]; [done| |lia].
  unfold SFdiv_core_binary.
  set (m' := match _ with Z0 => Z.pos m | Z.pos _ => _ | Z.neg _ => 0 end).
  assert (0 <= m') as Hm'.
  { subst m'. destruct (_ - _ - _) as [|s|s]; [lia| |lia].
    by apply Z.shiftl_nonneg. }
  assert (0 < 10 ^ Z.of_nat k) as Hpow by (apply Z.pow_pos_nonneg; lia).
  pose proof (Z.div_pos m' (10 ^ Z.of_nat k) Hm' Hpow) as Hq.
  unfold Z.div in Hq.
  destruct (Z.div_eucl m' (10 ^ Z.of_nat k)) as [q r].
  by apply binary_round_aux_not_nan.
Qed.

(** ** Rounding stays finite below the range of a float *)















(** ** [float] on the tokens of the number pattern *)

Lemma read_digits_nonneg (db : UnicodeDB) (s : pystr) (acc : Z) (n : nat) :
  0 <= acc -> 0 <= (read_digits db s acc n).1.1.
Proof.
  revert acc n. induction s as [|c s IH]; intros acc n H; simpl; [done|].
  destruct (todecimal db c) as [d|]; [|done].
  apply IH. lia.
Qed.

Lemma read_fraction_nonneg (db : UnicodeDB) (m1 : Z) (s : pystr) :
  0 <= m1 -> 0 <= (read_fraction db m1 s).1.1.
Proof.
  intros H. destruct s as [|c s]; simpl; [done|].
  destruct (c =? 46)%N; [by apply read_digits_nonneg|done].
Qed.

Lemma parse_decimal_nonneg (db : UnicodeDB) (s : pystr) (neg : bool) (m : Z) (k : nat) :
  parse_decimal db s = Ok (neg, m, k) -> 0 <= m.
Proof.
  unfold parse_decimal.
  destruct (read_sign s) as [neg' s1].
  pose proof (read_digits_nonneg db s1 0 0 ltac:(lia)) as H1.
  destruct (read_digits db s1 0 0) as [[m1 n1] s2]. simpl in H1.
  pose proof (read_fraction_nonneg db m1 s2 H1) as Hm.
  destruct (read_fraction db m1 s2) as [[m' n2] s3]. simpl in Hm.
  destruct s3; [|done].
  destruct (n1 + n2 =? 0)%nat; [done|].
  by intros [= <- <- <-].
Qed.

Lemma py_float_decimal (db : UnicodeDB) (s : pystr) (v : pyfloat) :
  py_float db s = Ok v ->
  exists neg m k,
    parse_decimal db s = Ok (neg, m, k) /\ 0 <= m /\ v = float_of_decimal neg m k.
Proof.
  unfold py_float.
  destruct (parse_decimal db s) as [[[neg m] k]|e] eqn:Hd; simpl; [|done].
  intros [= <-]. exists neg, m, k. split; [done|].
  split; [by eapply parse_decimal_nonneg|done].
Qed.

Lemma py_float_not_nan (db : UnicodeDB) (s : pystr) (v : pyfloat) :
  py_float db s = Ok v -> is_nan v = false.
Proof.
  intros (neg & m & k & _ & Hm & ->)%py_float_decimal.
  by apply float_of_decimal_not_nan.
Qed.

Lemma chr_in_sign (c : N) : chr_in "-+" c = true -> c = 45%N \/ c = 43%N.
Proof.
  unfold chr_in. rewrite bool_decide_eq_true.
  change (str "-+") with [45%N; 43%N].
  intros [->|H]%elem_of_cons; [auto|].
  apply elem_of_cons in H as [->|H]; [auto|]. by apply elem_of_nil in H.
Qed.

Lemma chr_in_dot (c : N) : chr_in "." c = true -> c = 46%N.
Proof.
  unfold chr_in. rewrite bool_decide_eq_true.
  change (str ".") with [46%N].
  intros [->|H]%elem_of_cons; [auto|]. by apply elem_of_nil in H.
Qed.

Lemma derives_chr_inv p w gs :
  derives (Chr p) w gs -> gs = [] /\ exists c, w = [c] /\ p c = true.
Proof. inversion 1; subst. split; [done|]. by eexists. Qed.

Lemma derives_opt_inv p w gs :
  derives (Opt p) w gs -> gs = [] /\ (w = [] \/ exists c, w = [c] /\ p c = true).
Proof. inversion 1; subst; (split; [done|]); [by left|right; by eexists]. Qed.

Lemma derives_star_inv p w gs :
  derives (Star p) w gs -> gs = [] /\ Forall (fun c => p c = true) w.
Proof. by inversion 1; subst. Qed.

Lemma derives_plus_inv p w gs :
  derives (Plus p) w gs ->
  gs = [] /\ exists c w', w = c :: w' /\ p c = true /\ Forall (fun c => p c = true) w'.
Proof. inversion 1; subst. split; [done|]. by eexists _, _. Qed.

Lemma derives_cat_inv r1 r2 w gs :
  derives (Cat r1 r2) w gs ->
  exists w1 w2 g1 g2,
    w = w1 ++ w2 /\ gs = g1 ++ g2 /\ derives r1 w1 g1 /\ derives r2 w2 g2.
Proof. inversion 1; subst. by eexists _, _, _, _. Qed.

Lemma derives_grp_inv r w gs :
  derives (Grp r) w gs -> exists g, gs = g ++ [w] /\ derives r w g.
Proof. inversion 1; subst. by eexists. Qed.

Lemma derives_number_token (db : UnicodeDB) (w : pystr) (gs : list pystr) :
  derives (number_pattern db) w gs -> gs = [] /\ is_number_token db w.
Proof.
  unfold number_pattern.
  intros (sg & w1 & g1 & g1' & -> & -> & Hsg & H)%derives_cat_inv.
  apply derives_cat_inv in H as (ds1 & w2 & g2 & g2' & -> & -> & Hds1 & H).
  apply derives_cat_inv in H as (dot & w3 & g3 & g3' & -> & -> & Hdot & H).
  apply derives_opt_inv in Hsg as [-> Hsg].
  apply derives_star_inv in Hds1 as [-> Hds1].
  apply derives_opt_inv in Hdot as [-> Hdot].
  apply derives_plus_inv in H as [-> (c & ds2 & -> & Hc & Hds2)].
  split; [done|].
  exists sg, ds1, dot, c, ds2. repeat split; try done.
  - destruct Hsg as [->|(c' & -> & [->| ->]%chr_in_sign)]; auto.
  - destruct Hdot as [->|(c' & -> & ->%chr_in_dot)]; auto.
Qed.

Lemma isdecimal_not_punct (db : UnicodeDB) (c : N) :
  isdecimal db c = true -> c <> 45%N /\ c <> 43%N /\ c <> 46%N.
Proof. intros H. repeat split; intros ->; vm_compute in H; discriminate. Qed.

Lemma read_digits_app (db : UnicodeDB) (ds rest : pystr) (acc : Z) (n : nat) :
  Forall (fun c => isdecimal db c = true) ds ->
  exists acc',
    read_digits db (ds ++ rest) acc n = read_digits db rest acc' (n + length ds).
Proof.
  intros Hds. revert acc n. induction Hds as [|c ds Hc _ IH]; intros acc n; simpl.
  - exists acc. by rewrite Nat.add_0_r.
  - unfold isdecimal in Hc. destruct (todecimal db c) as [d|]; [|done].
    destruct (IH (10 * acc + Z.of_N d) (S n)) as [acc' ->].
    exists acc'. f_equal. lia.
Qed.

Lemma read_digits_all (db : UnicodeDB) (ds : pystr) (acc : Z) (n : nat) :
  Forall (fun c => isdecimal db c = true) ds ->
  exists acc', read_digits db ds acc n = (acc', (n + length ds)%nat, []).
Proof.
  intros Hds. destruct (read_digits_app db ds [] acc n Hds) as [acc' H].
  rewrite app_nil_r in H. by exists acc'.
Qed.

Lemma read_sign_none (s : pystr) :
  match s with c :: _ => c <> 45%N /\ c <> 43%N | [] => True end ->
  read_sign s = (false, s).
Proof.
  destruct s as [|c s]; [done|]. intros [H1 H2]. simpl.
  apply N.eqb_neq in H1, H2. by rewrite H1, H2.
Qed.

(** [float] accepts every token of the number pattern: the handlers
    [except ValueError] of [parse_line] are never entered. *)
Lemma py_float_token (db : UnicodeDB) (w : pystr) :
  is_number_token db w -> exists v, py_float db w = Ok v.
Proof.
  intros (sg & ds1 & dot & c & ds2 & -> & Hsg & Hds1 & Hdot & Hc & Hds2).
  unfold py_float, parse_decimal.
  assert (Hsign : exists neg,
            read_sign (sg ++ ds1 ++ dot ++ c :: ds2) = (neg, ds1 ++ dot ++ c :: ds2)).
  { destruct Hsg as [->|[->| ->]]; [|by exists true|by exists false].
    exists false. apply read_sign_none. simpl.
    destruct Hds1 as [|d ds1 Hd _]; simpl.
    - destruct Hdot as [->| ->]; simpl; [|done].
      by destruct (isdecimal_not_punct db c Hc) as (? & ? & _).
    - by destruct (isdecimal_not_punct db d Hd) as (? & ? & _). }
  destruct Hsign as [neg ->].
  assert (Htail : Forall (fun c => isdecimal db c = true) (c :: ds2))
    by (by constructor).
  destruct Hdot as [->| ->].
  - rewrite app_nil_l.
    destruct (read_digits_all db (ds1 ++ c :: ds2) 0 0) as [m ->].
    { by apply Forall_app. }
    simpl. rewrite length_app. simpl.
    destruct (Nat.eqb_spec (length ds1 + S (length ds2) + 0) 0); [lia|].
    by eexists.
  - change ([46%N] ++ c :: ds2) with (46%N :: c :: ds2).
    destruct (read_digits_app db ds1 (46%N :: c :: ds2) 0 0 Hds1) as [m1 ->].
    change (read_digits db (46%N :: c :: ds2) m1 (0 + length ds1))
      with (m1, (0 + length ds1)%nat, 46%N :: c :: ds2).
    cbv beta iota zeta.
    change (read_fraction db m1 (46%N :: c :: ds2))
      with (read_digits db (c :: ds2) m1 0).
    destruct (read_digits_all db (c :: ds2) m1 0 Htail) as [m ->].
    simpl.
    destruct (Nat.eqb_spec (length ds1 + S (length ds2)) 0); [lia|].
    by eexists.
Qed.

(** ** [parse_line]: the labeled grammar *)

Lemma parse_line_with_unfold (prefix : pystr) (db : UnicodeDB) (line : pystr) :
  parse_line_with prefix db line =
  if bool_decide (strip db line = []) then Ok ∅
  else
    match labeled_matches db line with
    | _ :: _ => for_each (labeled_matches db line) (labeled_body db) ∅
    | [] =>
        for_each (enumerate (Re.split (separator_pattern db) (strip db line)))
          (positional_body prefix db) ∅
    end.
Proof. reflexivity. Qed.

Lemma derives_labeled (db : UnicodeDB) (w : pystr) (gs : list pystr) :
  derives (labeled_pattern db) w gs ->
  exists label tok,
    gs = [label; tok] /\
    label <> [] /\
    Forall (fun c => is_word db c = true) label /\
    is_number_token db tok.
Proof.
  unfold labeled_pattern.
  intros (w1 & w' & g1 & g' & -> & -> & Hlabel & H)%derives_cat_inv.
  apply derives_cat_inv in H as (w2 & w'' & g2 & g'' & -> & -> & Hsp1 & H).
  apply derives_cat_inv in H as (w3 & w''' & g3 & g''' & -> & -> & Hsep & H).
  apply derives_cat_inv in H as (w4 & w5 & g4 & g5 & -> & -> & Hsp2 & Hnum).
  apply derives_grp_inv in Hlabel as (g & -> & Hlabel).
  apply derives_plus_inv in Hlabel as [-> (c & label & -> & Hc & Hlabel)].
  apply derives_star_inv in Hsp1 as [-> _].
  apply derives_chr_inv in Hsep as [-> _].
  apply derives_star_inv in Hsp2 as [-> _].
  apply derives_grp_inv in Hnum as (g & -> & Hnum).
  apply derives_number_token in Hnum as [-> Htok].
  exists (c :: label), w5. repeat split; [done|by constructor|done].
Qed.

(** Every match of the labeled grammar is a pair of a name and a token that
    [float] accepts. *)
Lemma labeled_matches_convert (db : UnicodeDB) (s : pystr) :
  Forall (fun m => exists label tok v,
            m = [label; tok] /\ label <> [] /\ py_float db tok = Ok v)
         (findall (labeled_pattern db) s).
Proof.
  apply Forall_forall. intros m Hm.
  apply findall_from_sound in Hm as [w Hd].
  apply derives_labeled in Hd as (label & tok & -> & Hne & _ & Htok).
  destruct (py_float_token db tok Htok) as [v Hv].
  by exists label, tok, v.
Qed.

Lemma labeled_loop_spec (db : UnicodeDB) (ms : list (list pystr)) (values : batch) :
  Forall (fun m => exists label tok v,
            m = [label; tok] /\ label <> [] /\ py_float db tok = Ok v) ms ->
  exists b,
    for_each ms (labeled_body db) values = Ok b /\
    forall name,
      match last (filter (fun m => group m 0 = name) ms) with
      | Some m => exists v, py_float db (group m 1) = Ok v /\ b !! name = Some v
      | None => b !! name = values !! name
      end.
Proof.
  induction ms as [|m ms IH] using rev_ind; intros Hms.
  - exists values. split; [done|]. by intros name.
  - apply Forall_app in Hms as [Hms Hm].
    destruct (IH Hms) as (b & Hb & Hlook).
    apply Forall_singleton in Hm as (label & tok & v & -> & _ & Hv).
    rewrite for_each_app, Hb. simpl. unfold labeled_body at 1.
    change (group [label; tok] 1) with tok.
    change (group [label; tok] 0) with label.
    rewrite Hv. simpl.
    eexists. split; [done|]. intros name.
    rewrite filter_app, filter_cons, filter_nil.
    change (group [label; tok] 0) with label.
    destruct (decide (label = name)) as [<-|Hne].
    + rewrite last_snoc. exists v. by rewrite lookup_insert_eq.
    + rewrite app_nil_r, lookup_insert_ne by done. apply Hlook.
Qed.



(** ** [parse_line]: the positional grammar *)

Lemma uint_str_inj (d1 d2 : Decimal.uint) : uint_str d1 = uint_str d2 -> d1 = d2.
Proof.
  revert d2. induction d1 as [|d1 IH|d1 IH|d1 IH|d1 IH|d1 IH|d1 IH|d1 IH|d1 IH|d1 IH|d1 IH];
    intros [|d2|d2|d2|d2|d2|d2|d2|d2|d2|d2]; simpl; intros H;
    try discriminate; try reflexivity;
    injection H as H; f_equal; by apply IH.
Qed.

Lemma nat_str_inj (n1 n2 : nat) : nat_str n1 = nat_str n2 -> n1 = n2.
Proof.
  unfold nat_str. intros H%uint_str_inj.
  by rewrite <- (DecimalNat.Unsigned.of_to n1), <- (DecimalNat.Unsigned.of_to n2), H.
Qed.

Lemma channel_name_inj (prefix : pystr) (i j : nat) :
  channel_name prefix i = channel_name prefix j -> i = j.
Proof.
  unfold channel_name. intros H%app_inv_head%nat_str_inj. lia.
Qed.

Lemma enumerate_from_snoc {A} (i : nat) (l : list A) (x : A) :
  enumerate_from i (l ++ [x]) = enumerate_from i l ++ [((i + length l)%nat, x)].
Proof.
  revert i. induction l as [|a l IH]; intros i; simpl.
  - by rewrite Nat.add_0_r.
  - rewrite IH. by replace (S i + length l)%nat with (i + S (length l))%nat by lia.
Qed.

Lemma search_number_token (db : UnicodeDB) (part tok : pystr) :
  search (number_pattern db) part = Some tok ->
  is_number_token db tok /\
  exists pre post,
    part = pre ++ tok ++ post /\
    forall k, (k < length pre)%nat ->
      match_here (number_pattern db) (drop k part) = None.
Proof.
  intros (pre & post & gs & -> & Hd & Hleft)%search_sound.
  apply derives_number_token in Hd as [_ Htok].
  split; [done|]. by exists pre, post.
Qed.

Lemma positional_loop_spec (prefix : pystr) (db : UnicodeDB) (parts : list pystr)
    (values : batch) :
  exists b,
    for_each (enumerate parts) (positional_body prefix db) values = Ok b /\
    (forall i,
       match field_token db parts i with
       | Some tok =>
           exists v, py_float db tok = Ok v /\ b !! channel_name prefix i = Some v
       | None => b !! channel_name prefix i = values !! channel_name prefix i
       end) /\
    (forall name,
       b !! name = values !! name \/
       exists i, (i < length parts)%nat /\ name = channel_name prefix i).
Proof.
  unfold enumerate, field_token.
  induction parts as [|part parts IH] using rev_ind.
  - exists values. split; [done|]. split; [by intros i|by left].
  - destruct IH as (b & Hb & Hfield & Hother).
    rewrite enumerate_from_snoc, for_each_app, Hb. simpl.
    destruct (search (number_pattern db) part) as [tok|] eqn:Hsearch.
    + destruct (search_number_token db part tok Hsearch) as [Htok _].
      destruct (py_float_token db tok Htok) as [v Hv].
      rewrite Hv. simpl. eexists. split; [done|]. split.
      * intros i. destruct (decide (i = length parts)) as [->|Hi].
        -- rewrite list_lookup_middle by done. simpl. rewrite Hsearch.
           exists v. by rewrite lookup_insert_eq.
        -- assert (channel_name prefix (length parts) <> channel_name prefix i)
             by (by intros ?%channel_name_inj).
           rewrite lookup_insert_ne by done.
           destruct (decide (i < length parts)%nat).
           ++ rewrite lookup_app_l by done. apply Hfield.
           ++ rewrite lookup_ge_None_2 by (rewrite length_app; simpl; lia).
              simpl. specialize (Hfield i).
              rewrite lookup_ge_None_2 in Hfield by lia. done.
      * intros name. rewrite length_app. simpl.
        destruct (decide (channel_name prefix (length parts) = name)) as [<-|Hne].
        -- right. exists (length parts). split; [lia|done].
        -- rewrite lookup_insert_ne by done.
           destruct (Hother name) as [?|(i & Hi & ->)]; [by left|].
           right. exists i. split; [lia|done].
    + simpl. exists b. split; [done|]. split.
      * intros i. destruct (decide (i = length parts)) as [->|Hi].
        -- rewrite list_lookup_middle by done. simpl. rewrite Hsearch.
           specialize (Hfield (length parts)).
           rewrite lookup_ge_None_2 in Hfield by lia. done.
        -- destruct (decide (i < length parts)%nat).
           ++ rewrite lookup_app_l by done. apply Hfield.
           ++ rewrite lookup_ge_None_2 by (rewrite length_app; simpl; lia).
              simpl. specialize (Hfield i).
              rewrite lookup_ge_None_2 in Hfield by lia. done.
      * intros name. rewrite length_app. simpl.
        destruct (Hother name) as [?|(i & Hi & ->)]; [by left|].
        right. exists i. split; [lia|done].
Qed.

(** *** [re.split] on a pattern [c+] *)

Lemma skip_run_spec (p : N -> bool) (s : pystr) :
  exists w,
    s = w ++ skip_run p s /\ Forall (fun c => p c = true) w /\
    match skip_run p s with c :: _ => p c = false | [] => True end.
Proof.
  induction s as [|c s IH]; simpl.
  - by exists [].
  - destruct (p c) eqn:Hc.
    + destruct IH as (w & Hs & Hw & Hhd).
      exists (c :: w). split; [by rewrite Hs at 1|]. split; [by constructor|done].
    + by exists [].
Qed.

Lemma star_greedy {A} (p : N -> bool) (s : pystr) (f : pystr -> A) :
  star p s (fun s' => Some (f s')) = Some (f (skip_run p s)).
Proof.
  induction s as [|c s IH]; simpl; [done|].
  destruct (p c); [|done]. by rewrite IH.
Qed.

Lemma match_here_plus (p : N -> bool) (s : pystr) :
  match_here (Plus p) s =
  match s with
  | c :: s' => if p c then Some (skip_run p s', []) else None
  | [] => None
  end.
Proof.
  unfold match_here. simpl. destruct s as [|c s]; [done|].
  destruct (p c); [|done].
  apply (star_greedy p s (fun s' => (s', []))).
Qed.

Lemma split_from_skip (r : regex) (s : pystr) (skip : nat) (cur : pystr) :
  split_from r s skip cur = split_from r (drop skip s) 0 cur.
Proof.
  revert skip. induction s as [|c s IH]; intros [|n]; simpl; auto.
Qed.

Lemma split_from_plus_cons (p : N -> bool) (c : N) (s cur : pystr) :
  split_from (Plus p) (c :: s) 0 cur =
  if p c then cur :: split_from (Plus p) (skip_run p s) 0 []
  else split_from (Plus p) s 0 (cur ++ [c]).
Proof.
  cbn [split_from]. rewrite match_here_plus.
  destruct (p c); [|done].
  rewrite split_from_skip. do 2 f_equal.
  destruct (skip_run_spec p s) as (w & Hs & _ & _).
  remember (skip_run p s) as rest eqn:Hrest. clear Hrest. subst s.
  cbn [length]. rewrite length_app.
  replace (S (length w + length rest) - length rest - 1)%nat
    with (length w) by lia.
  by rewrite drop_app_length.
Qed.

Lemma join_fields_cons_head (c : N) (f : pystr) (fs seps : list pystr) :
  join_fields ((c :: f) :: fs) seps = c :: join_fields (f :: fs) seps.
Proof. by destruct seps. Qed.

Lemma split_from_fields (p : N -> bool) (n : nat) (s cur : pystr) :
  (length s <= n)%nat ->
  exists f0 fs seps,
    split_from (Plus p) s 0 cur = (cur ++ f0) :: fs /\
    length fs = length seps /\
    s = join_fields (f0 :: fs) seps /\
    Forall (fun sp => sp <> [] /\ Forall (fun c => p c = true) sp) seps /\
    Forall (Forall (fun c => p c = false)) (f0 :: fs) /\
    (forall i, (i + 1 < length fs)%nat -> fs !! i <> Some []).
Proof.
  revert s cur. induction n as [|n IH]; intros s cur Hlen.
  - destruct s; [|simpl in Hlen; lia].
    exists [], [], []. rewrite app_nil_r.
    split; [done|]. split; [done|]. split; [done|]. split; [constructor|].
    split; [by repeat constructor|]. intros i Hi. simpl in Hi. lia.
  - destruct s as [|c s].
    { exists [], [], []. rewrite app_nil_r.
      split; [done|]. split; [done|]. split; [done|]. split; [constructor|].
      split; [by repeat constructor|]. intros i Hi. simpl in Hi. lia. }
    simpl in Hlen. rewrite split_from_plus_cons.
    destruct (p c) eqn:Hc.
    + destruct (skip_run_spec p s) as (w & Hs & Hw & Hhd).
      destruct (IH (skip_run p s) []) as (f0 & fs & seps & Hsplit & Hl & Hjoin & Hseps & Hfs & Hint).
      { rewrite Hs in Hlen. rewrite length_app in Hlen. lia. }
      rewrite Hsplit. simpl.
      exists [], (f0 :: fs), ((c :: w) :: seps).
      rewrite app_nil_r. split; [done|]. split; [simpl; lia|].
      split.
      { change (join_fields ([] :: f0 :: fs) ((c :: w) :: seps))
          with (c :: w ++ join_fields (f0 :: fs) seps).
        rewrite <- Hjoin. by rewrite Hs at 1. }
      split; [constructor; [split; [done|by constructor]|done]|].
      split; [by constructor|].
      intros [|i] Hi; simpl in *.
      * intros [= ->]. destruct fs as [|f1 fs]; [simpl in Hi; lia|].
        destruct seps as [|sp seps]; [done|].
        apply Forall_cons in Hseps as [[Hne Hsp] _].
        destruct sp as [|c' sp]; [done|].
        simpl in Hjoin. rewrite Hjoin in Hhd.
        apply Forall_cons in Hsp as [Hc' _]. congruence.
      * apply Hint. lia.
    + destruct (IH s (cur ++ [c])) as (f0 & fs & seps & Hsplit & Hl & Hjoin & Hseps & Hfs & Hint);
        [lia|].
      rewrite Hsplit.
      exists (c :: f0), fs, seps.
      split; [by rewrite <- app_assoc|]. split; [done|].
      split; [by rewrite join_fields_cons_head, <- Hjoin|].
      split; [done|]. split; [|done].
      apply Forall_cons in Hfs as [Hf0 Hfs].
      constructor; [by constructor|done].
Qed.

(** [re.split] on [c+] yields the fields of the text. *)
Lemma split_plus_fields (p : N -> bool) (s : pystr) :
  fields_of p s (Re.split (Plus p) s).
Proof.
  unfold Re.split.
  destruct (split_from_fields p (length s) s []) as
    (f0 & fs & seps & -> & Hl & Hjoin & Hseps & Hfs & Hint); [done|].
  exists seps. simpl. repeat split; try done; [by rewrite Hl|].
  intros [|i] [Hi1 Hi2]; [lia|]. simpl. apply Hint. lia.
Qed.

Lemma C3_counterexample :
  exists b,
    SerialPlotter_parse_line ascii_db (str "10 xx 30") = Ok b /\
    b = batch_kanal1_kanal3 /\
    b !! str "CH1" = None /\
    b !! str "CH3" = None /\
    b !! str "Kanal_1" = Some (float_of_Z 10) /\
    b !! str "Kanal_3" = Some (float_of_Z 30).
Proof.
  exists batch_kanal1_kanal3. by vm_compute.
Qed.

(** C3 (amended): on a line with zero labeled matches, parse splits the
    stripped line on runs of comma, semicolon, whitespace and tab into
    ordered fields and binds, for every field, the leftmost
    signed-decimal-number substring of the field to the name
    <prefix><i+1>, [i] being the position of the field from 0 and the prefix
    being CH in [SerialPlotterTUI.parse_line] and Kanal_ in
    [SerialPlotter.parse_line]; a field with no such substring binds
    nothing and shifts no index, the batch holds no other name, and
    "10 xx 30" yields {CH1: 10, CH3: 30}, respectively
    {Kanal_1: 10, Kanal_3: 30}. *)
Theorem positional_grammar (prefix : pystr) (db : UnicodeDB) (line : pystr) :
  labeled_matches db line = [] ->
  exists b,
    parse_line_with prefix db line = Ok b /\
    fields_of (is_separator db) (strip db line)
      (Re.split (separator_pattern db) (strip db line)) /\
    (forall i,
       match field_token db (Re.split (separator_pattern db) (strip db line)) i with
       | Some tok =>
           exists v, py_float db tok = Ok v /\ b !! (prefix ++ nat_str (i + 1)) = Some v
       | None => b !! (prefix ++ nat_str (i + 1)) = None
       end) /\
    (forall name,
       is_Some (b !! name) ->
       exists i,
         (i < length (Re.split (separator_pattern db) (strip db line)))%nat /\
         name = prefix ++ nat_str (i + 1)) /\
    (forall field tok,
       search (number_pattern db) field = Some tok ->
       is_number_token db tok /\
       exists pre post,
         field = pre ++ tok ++ post /\
         forall k, (k < length pre)%nat ->
           match_here (number_pattern db) (drop k field) = None) /\
    parse_line db (str "10 xx 30") = Ok batch_ch1_ch3 /\
    SerialPlotter_parse_line db (str "10 xx 30") = Ok batch_kanal1_kanal3.
Proof.
  intros Hnone.
  set (fields := Re.split (separator_pattern db) (strip db line)).
  assert (Hfields : fields_of (is_separator db) (strip db line) fields)
    by apply split_plus_fields.
  assert (Hsearch : forall field tok,
    search (number_pattern db) field = Some tok ->
    is_number_token db tok /\
    exists pre post,
      field = pre ++ tok ++ post /\
      forall k, (k < length pre)%nat ->
        match_here (number_pattern db) (drop k field) = None)
    by apply search_number_token.
  assert (Hex : parse_line db (str "10 xx 30") = Ok batch_ch1_ch3 /\
                SerialPlotter_parse_line db (str "10 xx 30") = Ok batch_kanal1_kanal3)
    by (split; by vm_compute).
  rewrite parse_line_with_unfold, Hnone.
  case_bool_decide as Hstrip.
  - exists ∅. split; [done|]. split; [done|]. split; [|split; [|by split]].
    + intros i. subst fields. rewrite Hstrip.
      destruct i as [|i]; [|done]. by rewrite lookup_empty.
    + intros name [v Hv]. by rewrite lookup_empty in Hv.
  - destruct (positional_loop_spec prefix db fields ∅) as (b & Hb & Hfield & Hother).
    exists b. split; [done|]. split; [done|].
    split; [|split; [|by split]].
    + intros i. specialize (Hfield i). unfold channel_name in Hfield.
      destruct (field_token db fields i); [done|]. by rewrite Hfield, lookup_empty.
    + intros name [v Hv].
      destruct (Hother name) as [Heq|(i & Hi & ->)].
      * by rewrite Heq, lookup_empty in Hv.
      * by exists i.
Qed.

Lemma positional_grammar_witness :
  labeled_matches ascii_db (str "10 xx 30") = [] /\
  (exists b, parse_line ascii_db (str "10 xx 30") = Ok b /\ b = batch_ch1_ch3) /\
  (exists b, SerialPlotter_parse_line ascii_db (str "10 xx 30") = Ok b /\
             b = batch_kanal1_kanal3).
Proof.
  assert (H : labeled_matches ascii_db (str "10 xx 30") = []) by (by vm_compute).
  split; [exact H|].
  destruct (positional_grammar (str "CH") ascii_db (str "10 xx 30") H)
    as (_ & _ & _ & _ & _ & _ & Hch & Hkanal).
  split; eexists; (split; [eassumption|reflexivity]).
Defined.

(** ** [parse_line]: totality and the values of a batch *)

Lemma py_float_raises (db : UnicodeDB) (s : pystr) (e : exn) :
  py_float db s = Raise e -> e = ValueError.
Proof.
  unfold py_float, parse_decimal.
  destruct (read_sign s) as [neg s1].
  destruct (read_digits db s1 0 0) as [[m1 n1] s2].
  destruct (read_fraction db m1 s2) as [[m n2] s3].
  destruct s3; [|by intros [= <-]].
  destruct (n1 + n2 =? 0)%nat; [by intros [= <-]|done].
Qed.

(** A token that does not convert is dropped: the body of either loop
    returns normally, with the batch as it was. *)
Lemma labeled_body_drops (db : UnicodeDB) (m : list pystr) (values : batch) :
  labeled_body db m values =
  Ok (match py_float db (group m 1) with
      | Ok v => <[group m 0 := v]> values
      | Raise _ => values
      end).
Proof.
  unfold labeled_body.
  destruct (py_float db (group m 1)) as [v|e] eqn:Hf; simpl; [done|].
  by rewrite (py_float_raises _ _ _ Hf).
Qed.


Lemma lstrip_all_space (db : UnicodeDB) (s : pystr) :
  forallb (isspace db) s = true -> lstrip db s = [].
Proof.
  induction s as [|c s IH]; simpl; [done|].
  intros [Hc Hs]%andb_prop. rewrite Hc. by apply IH.
Qed.


(** [parse_line] returns a batch for every line, and every value of the
    batch is the float of a token of the number pattern. *)
Lemma parse_line_with_values (prefix : pystr) (db : UnicodeDB) (line : pystr) :
  exists b,
    parse_line_with prefix db line = Ok b /\
    forall name v,
      b !! name = Some v ->
      exists tok, is_number_token db tok /\ py_float db tok = Ok v.
Proof.
  rewrite parse_line_with_unfold.
  case_bool_decide as Hstrip.
  { exists ∅. split; [done|]. intros name v H. by rewrite lookup_empty in H. }
  destruct (labeled_matches db line) as [|m ms] eqn:Hms.
  - destruct (positional_loop_spec prefix db
                (Re.split (separator_pattern db) (strip db line)) ∅)
      as (b & Hb & Hfield & Hother).
    exists b. split; [done|]. intros name v Hv.
    destruct (Hother name) as [Heq|(i & _ & ->)].
    { by rewrite Heq, lookup_empty in Hv. }
    specialize (Hfield i). unfold field_token in Hfield.
    destruct (_ !! i) as [part|]; simpl in Hfield;
      [|by rewrite Hfield, lookup_empty in Hv].
    destruct (search (number_pattern db) part) as [tok|] eqn:Hs;
      [|by rewrite Hfield, lookup_empty in Hv].
    destruct Hfield as (v' & Hf & Hb').
    exists tok. split; [by apply (search_number_token db part)|congruence].
  - pose proof (labeled_matches_convert db (strip db line)) as Hall.
    fold (labeled_matches db line) in Hall.
    destruct (labeled_loop_spec db (labeled_matches db line) ∅ Hall)
      as (b & Hb & Hlook).
    rewrite <- Hms. exists b. split; [done|]. intros name v Hv.
    specialize (Hlook name).
    destruct (last _) as [m'|] eqn:Hlast;
      [|by rewrite Hlook, lookup_empty in Hv].
    destruct Hlook as (v' & Hf & Hb').
    apply last_Some_elem_of, list_elem_of_filter in Hlast as [_ Hin].
    rewrite Forall_forall in Hall.
    apply findall_from_sound in Hin as [w Hd].
    apply derives_labeled in Hd as (label & tok & -> & _ & _ & Htok).
    exists tok. split; [done|].
    change (group [label; tok] 1) with tok in Hf. congruence.
Qed.



(** *** The labeled grammar on two integers around a separator *)

Lemma ascii_digit_cases (c : N) :
  ascii_digit c = true ->
  c ∈ [48; 49; 50; 51; 52; 53; 54; 55; 56; 57]%N.
Proof.
  unfold ascii_digit, in_range. intros [H1 H2]%andb_prop.
  apply N.leb_le in H1, H2.
  assert (c = 48 \/ c = 49 \/ c = 50 \/ c = 51 \/ c = 52 \/ c = 53 \/ c = 54 \/
          c = 55 \/ c = 56 \/ c = 57)%N as Hc by lia.
  repeat (destruct Hc as [->|Hc]; [set_solver|]). subst. set_solver.
Qed.

Lemma ascii_digit_classes (db : UnicodeDB) (c : N) :
  ascii_digit c = true ->
  isdecimal db c = true /\ is_word db c = true /\ isspace db c = false /\
  chr_in "-+" c = false /\ chr_in "." c = false.
Proof.
  intros H%ascii_digit_cases.
  repeat (apply elem_of_cons in H as [->|H]; [by vm_compute|]).
  by apply elem_of_nil in H.
Qed.

Lemma star_stop {A} (p : N -> bool) (c : N) (s : pystr) (k : pystr -> option A) :
  p c = false -> star p (c :: s) k = k (c :: s).
Proof. intros H. simpl. by rewrite H. Qed.

Lemma star_take_all {A} (p : N -> bool) (w rest : pystr) (k : pystr -> option A) (r : A) :
  Forall (fun c => p c = true) w ->
  k rest = Some r ->
  match rest with c :: _ => p c = false | [] => True end ->
  star p (w ++ rest) k = Some r.
Proof.
  intros Hw Hk Hrest. induction Hw as [|c w Hc _ IH]; simpl.
  - destruct rest as [|c rest]; [done|]. by rewrite star_stop.
  - by rewrite Hc, IH.
Qed.

Lemma star_give_back_one {A} (p : N -> bool) (c : N) (w : pystr)
    (k : pystr -> option A) (r : A) :
  Forall (fun c => p c = true) (c :: w) ->
  k [] = None ->
  (forall c', p c' = true -> k [c'] = Some r) ->
  star p (c :: w) k = Some r.
Proof.
  intros Hw Hnil Hone. revert c Hw. induction w as [|c' w IH]; intros c Hw.
  - apply Forall_cons in Hw as [Hc _]. simpl. rewrite Hc, Hnil. simpl. by apply Hone.
  - apply Forall_cons in Hw as [Hc Hw]. 
    change (star p (c :: c' :: w) k) with
      (if p c then orelse (star p (c' :: w) k) (k (c :: c' :: w)) else k (c :: c' :: w)).
    rewrite Hc, (IH c' Hw). done.
Qed.

Lemma match_here_two_integers (db : UnicodeDB) (c1 : N) (r1 : pystr) (sep c2 : N) (r2 : pystr) :
  Forall (fun c => ascii_digit c = true) (c1 :: r1) ->
  Forall (fun c => ascii_digit c = true) (c2 :: r2) ->
  sep = 58%N \/ sep = 61%N ->
  match_here (labeled_pattern db) ((c1 :: r1) ++ sep :: c2 :: r2) =
  Some ([], [c1 :: r1; c2 :: r2]).
Proof.
  intros H1 H2 Hsep.
  assert (Hw1 : Forall (fun c => is_word db c = true) (c1 :: r1)).
  { eapply Forall_impl; [exact H1|]. intros c Hc. by apply ascii_digit_classes. }
  assert (Hd2 : Forall (fun c => isdecimal db c = true) (c2 :: r2)).
  { eapply Forall_impl; [exact H2|]. intros c Hc. by apply ascii_digit_classes. }
  apply Forall_cons in Hw1 as [Hc1 Hr1].
  pose proof H2 as H2'. apply Forall_cons in H2' as [Hc2 _].
  destruct (ascii_digit_classes db c2 Hc2) as (_ & _ & Hsp2 & Hsg2 & _).
  assert (Hsepc : is_word db sep = false /\ isspace db sep = false /\ chr_in ":=" sep = true).
  { destruct Hsep as [->| ->]; by vm_compute. }
  destruct Hsepc as (Hsw & Hss & Hsc).
  remember ((c1 :: r1) ++ sep :: c2 :: r2) as s eqn:Hs.
  unfold match_here, labeled_pattern. cbn [mtch].
  assert (Hs' : s = c1 :: (r1 ++ sep :: c2 :: r2)) by (by rewrite Hs).
  rewrite Hs' at 1. rewrite Hc1.
  apply star_take_all; [done| |by rewrite Hsw].
  rewrite Hs, consumed_app. cbn [app].
  rewrite star_stop by done. rewrite Hsc. rewrite star_stop by done.
  unfold number_pattern. cbn [mtch]. rewrite Hsg2.
  apply star_give_back_one; [done|done|].
  intros c' Hc'.
  assert (chr_in "." c' = false) as ->.
  { destruct (isdecimal_not_punct db c' Hc') as (_ & _ & Hne).
    unfold chr_in. apply bool_decide_eq_false.
    change (str ".") with [46%N].
    intros [?|H]%elem_of_cons; [done|by apply elem_of_nil in H]. }
  rewrite Hc'. cbn [star].
  by rewrite Nat.sub_0_r, firstn_all.
Qed.

Lemma findall_from_skip_all (r : regex) (s : pystr) :
  findall_from r s (length s) = findall_from r [] 0.
Proof. induction s as [|c s IH]; [done|]. simpl. exact IH. Qed.

Lemma lstrip_no_space (db : UnicodeDB) (s : pystr) :
  Forall (fun c => isspace db c = false) s -> lstrip db s = s.
Proof. intros [|c s' Hc _]; [done|]. simpl. by rewrite Hc. Qed.

Lemma strip_no_space (db : UnicodeDB) (s : pystr) :
  Forall (fun c => isspace db c = false) s -> strip db s = s.
Proof.
  intros H. unfold strip, rstrip. rewrite (lstrip_no_space db s H).
  rewrite lstrip_no_space; [apply rev_involutive|].
  by apply Forall_rev.
Qed.

Lemma two_integers_labeled (db : UnicodeDB) (n1 n2 : pystr) (sep : N) :
  n1 <> [] -> n2 <> [] ->
  Forall (fun c => ascii_digit c = true) n1 ->
  Forall (fun c => ascii_digit c = true) n2 ->
  sep = 58%N \/ sep = 61%N ->
  labeled_matches db (n1 ++ sep :: n2) = [[n1; n2]] /\
  exists v,
    py_float db n2 = Ok v /\
    forall prefix, parse_line_with prefix db (n1 ++ sep :: n2) = Ok {[ n1 := v ]}.
Proof.
  intros Hn1 Hn2 H1 H2 Hsep.
  destruct n1 as [|c1 r1]; [done|]. destruct n2 as [|c2 r2]; [done|].
  assert (Hstrip : strip db ((c1 :: r1) ++ sep :: c2 :: r2) = (c1 :: r1) ++ sep :: c2 :: r2).
  { apply strip_no_space, Forall_app. split.
    - eapply Forall_impl; [exact H1|]. intros c Hc. by apply ascii_digit_classes.
    - constructor; [destruct Hsep as [->| ->]; by vm_compute|].
      eapply Forall_impl; [exact H2|]. intros c Hc. by apply ascii_digit_classes. }
  assert (Hall : labeled_matches db ((c1 :: r1) ++ sep :: c2 :: r2) = [[c1 :: r1; c2 :: r2]]).
  { unfold labeled_matches, findall. rewrite Hstrip.
    pose proof (match_here_two_integers db c1 r1 sep c2 r2 H1 H2 Hsep) as Hm.
    change ((c1 :: r1) ++ sep :: c2 :: r2) with (c1 :: (r1 ++ sep :: c2 :: r2)) in *.
    cbn [findall_from]. rewrite Hm. cbn [length].
    replace (S (length (r1 ++ sep :: c2 :: r2)) - 0 - 1)%nat
      with (length (r1 ++ sep :: c2 :: r2)) by lia.
    by rewrite findall_from_skip_all. }
  split; [done|].
  destruct (py_float_token db (c2 :: r2)) as [v Hv].
  { exists [], [], [], c2, r2. apply Forall_cons in H2 as [Hc2 Hr2].
    repeat split; auto.
    - by apply ascii_digit_classes.
    - eapply Forall_impl; [exact Hr2|]. intros c Hc. by apply ascii_digit_classes. }
  exists v. split; [done|]. intros prefix.
  rewrite parse_line_with_unfold, Hall, Hstrip.
  rewrite bool_decide_eq_false_2 by done.
  cbn [for_each]. unfold labeled_body.
  change (group [c1 :: r1; c2 :: r2] 1) with (c2 :: r2).
  change (group [c1 :: r1; c2 :: r2] 0) with (c1 :: r1).
  rewrite Hv. simpl. by rewrite insert_empty.
Qed.

Lemma isdecimal_is_word (db : UnicodeDB) (c : N) :
  isdecimal db c = true -> is_word db c = true.
Proof.
  unfold is_word, isalnum. intros H.
  destruct (c <? 128)%N eqn:Hc.
  - unfold isdecimal, todecimal in H. rewrite Hc in H.
    destruct (in_range 48 57 c); [done|discriminate].
  - rewrite H. by rewrite orb_true_r.
Qed.

(** C10: the identifier pattern [\w+] accepts digits, all-digit tokens
    included, so that a line of two integers around ':' or '=' is a labeled
    line: its only match has the first integer as name and the second as
    value, parse returns the batch of this one pair whatever the channel
    prefix, and the positional grammar is suppressed; "10:20" yields
    {"10": 20.0} and no CH1. *)
Theorem digits_are_labels (db : UnicodeDB) :
  (forall c, isdecimal db c = true -> is_word db c = true) /\
  (forall n1 n2 sep,
     n1 <> [] -> n2 <> [] ->
     Forall (fun c => ascii_digit c = true) n1 ->
     Forall (fun c => ascii_digit c = true) n2 ->
     sep = 58%N \/ sep = 61%N ->
     labeled_matches db (n1 ++ sep :: n2) = [[n1; n2]] /\
     exists v,
       py_float db n2 = Ok v /\
       forall prefix, parse_line_with prefix db (n1 ++ sep :: n2) = Ok {[ n1 := v ]}) /\
  labeled_matches db (str "10:20") = [[str "10"; str "20"]] /\
  parse_line db (str "10:20") = Ok batch_10_20 /\
  batch_10_20 !! str "CH1" = None /\
  SerialPlotter_parse_line db (str "10:20") = Ok batch_10_20.
Proof.
  split; [apply isdecimal_is_word|].
  split; [apply two_integers_labeled|].
  repeat split; by vm_compute.
Qed.

(** ** The acquisition loop: the scenario of a lost and restored link *)




(** ** The scenarios of the specification *)

Example parse_labeled_pair (db : UnicodeDB) :
  parse_line db (str "temp=25.5,humidity:60") = Ok batch_temp_humidity.
Proof. by vm_compute. Qed.

Example parse_blank (db : UnicodeDB) : parse_line db (str "  ") = Ok ∅.
Proof. by vm_compute. Qed.

Example parse_single_value (db : UnicodeDB) :
  parse_line db (str "3.14") = Ok batch_pi.
Proof. by vm_compute. Qed.

Example parse_three_fields (db : UnicodeDB) :
  parse_line db (str "10,20,30") = Ok batch_10_20_30.
Proof. by vm_compute. Qed.

Example fresh_app_init : SerialPlotterTUI_init 100 = Ok fresh_app.
Proof. reflexivity. Qed.

(** The floats of the examples, as binary64 values. *)
Example float_25_5 : float_of_ratio 255 1 = S754_finite false 7177611906121728 (-48).
Proof. reflexivity. Qed.

Example float_3_14 : float_of_ratio 314 2 = S754_finite false 7070651414971679 (-51).
Proof. reflexivity. Qed.

Example float_2 : float_of_Z 2 = S754_finite false 4503599627370496 (-51).
Proof. reflexivity. Qed.

(** The rounding at the edge of the range: the largest float, and the first
    integer that rounds to an infinity. *)
Example float_0_1 : float_of_ratio 1 1 = S754_finite false 7205759403792794 (-56).
Proof. reflexivity. Qed.

Example float_largest :
  float_of_decimal false (2 ^ 1024 - 2 ^ 970 - 1) 0 =
  S754_finite false (2 ^ 53 - 1) 971.
Proof. by vm_compute. Qed.

Example float_overflow :
  float_of_decimal false (2 ^ 1024 - 2 ^ 970) 0 = S754_infinity false.
Proof. by vm_compute. Qed.

(** The matcher on lines that exercise backtracking and scanning. *)
Example findall_spaces_and_sign (db : UnicodeDB) :
  labeled_matches db (str "x y = -.5") = [[str "y"; str "-.5"]].
Proof. by vm_compute. Qed.

Example findall_fraction_as_label (db : UnicodeDB) :
  labeled_matches db (str "1.5:3") = [[str "5"; str "3"]].
Proof. by vm_compute. Qed.

Example split_runs (db : UnicodeDB) :
  Re.split (separator_pattern db) (str "a,,b; c") = [str "a"; str "b"; str "c"].
Proof. by vm_compute. Qed.

Example split_leading_separator (db : UnicodeDB) :
  Re.split (separator_pattern db) (str ",10") = [[]; str "10"].
Proof. by vm_compute. Qed.

Example search_leftmost_number (db : UnicodeDB) :
  search (number_pattern db) (str "ab-12.5.3") = Some (str "-12.5").
Proof. by vm_compute. Qed.

Example search_integer_backtracks (db : UnicodeDB) :
  search (number_pattern db) (str "12.") = Some (str "12").
Proof. by vm_compute. Qed.

(** * Further properties *)

(** ** [parse_line]: surrounding whitespace *)

Lemma lstrip_app_space (db : UnicodeDB) (ws s : pystr) :
  forallb (isspace db) ws = true -> lstrip db (ws ++ s) = lstrip db s.
Proof.
  induction ws as [|c ws IH]; simpl; [done|].
  intros [Hc Hws]%andb_true_iff. rewrite Hc. auto.
Qed.

Lemma lstrip_app_nonempty (db : UnicodeDB) (s t : pystr) :
  lstrip db s <> [] -> lstrip db (s ++ t) = lstrip db s ++ t.
Proof.
  induction s as [|c s IH]; simpl; [done|].
  destruct (isspace db c); [exact IH|done].
Qed.

Lemma forallb_rev {A} (p : A -> bool) (l : list A) :
  forallb p (rev l) = forallb p l.
Proof.
  induction l as [|a l IH]; simpl; [done|].
  rewrite forallb_app, IH. simpl. rewrite andb_true_r. apply andb_comm.
Qed.

Lemma rstrip_app_space (db : UnicodeDB) (s ws : pystr) :
  forallb (isspace db) ws = true -> rstrip db (s ++ ws) = rstrip db s.
Proof.
  intros Hws. unfold rstrip. rewrite rev_app_distr, lstrip_app_space; [done|].
  by rewrite forallb_rev.
Qed.

Lemma lstrip_space_or_not (db : UnicodeDB) (s : pystr) :
  lstrip db s = [] -> forallb (isspace db) s = true.
Proof.
  induction s as [|c s IH]; simpl; [done|].
  destruct (isspace db c); [exact IH|done].
Qed.

Lemma strip_padding (db : UnicodeDB) (ws s ws' : pystr) :
  forallb (isspace db) ws = true ->
  forallb (isspace db) ws' = true ->
  strip db (ws ++ s ++ ws') = strip db s.
Proof.
  intros Hws Hws'. unfold strip. rewrite lstrip_app_space by done.
  destruct (lstrip db s) as [|c r] eqn:Hl.
  - rewrite lstrip_all_space; [done|].
    rewrite forallb_app, Hws', andb_true_r. by apply lstrip_space_or_not.
  - rewrite lstrip_app_nonempty by (by rewrite Hl). rewrite Hl.
    by apply rstrip_app_space.
Qed.

Lemma lstrip_idem (db : UnicodeDB) (s : pystr) :
  lstrip db (lstrip db s) = lstrip db s.
Proof.
  induction s as [|c s IH]; simpl; [done|].
  destruct (isspace db c) eqn:Hc; [exact IH|]. simpl. by rewrite Hc.
Qed.

(** X1: [parse_line] ignores the whitespace around a line: a line padded on
    either side with any whitespace characters (blanks, tabs, the CR and LF
    of a line ending, ...) gives the same batch as the line itself, in all
    three variants of the parser. *)
Theorem parse_line_ignores_padding (prefix : pystr) (db : UnicodeDB)
    (ws line ws' : pystr) :
  forallb (isspace db) ws = true ->
  forallb (isspace db) ws' = true ->
  parse_line_with prefix db (ws ++ line ++ ws') = parse_line_with prefix db line.
Proof.
  intros Hws Hws'. rewrite !parse_line_with_unfold. unfold labeled_matches.
  by rewrite strip_padding.
Qed.

Lemma parse_line_ignores_padding_witness :
  parse_line_with (str "CH") ascii_db (str "  " ++ str "a:1" ++ [13; 10]%N) =
  parse_line_with (str "CH") ascii_db (str "a:1").
Proof.
  apply (parse_line_ignores_padding (str "CH") ascii_db (str "  ") (str "a:1") [13; 10]%N);
    reflexivity.
Defined.

(** ** [parse_line]: the names of a batch *)

Lemma labeled_loop_names (db : UnicodeDB) (ms : list (list pystr)) (values b : batch) :
  for_each ms (labeled_body db) values = Ok b ->
  forall name, is_Some (b !! name) ->
    is_Some (values !! name) \/ exists m, m ∈ ms /\ group m 0 = name.
Proof.
  revert values. induction ms as [|m ms IH]; intros values; simpl.
  - intros [= <-] name H. by left.
  - rewrite labeled_body_drops. simpl. intros Hb name Hn.
    destruct (IH _ Hb name Hn) as [Hv|(m' & Hin & Hg)].
    + destruct (py_float db (group m 1)); [|by left].
      destruct (decide (group m 0 = name)) as [Heq|Hne].
      * right. exists m. split; [by left|done].
      * left. by rewrite lookup_insert_ne in Hv.
    + right. exists m'. split; [by right|done].
Qed.

Lemma uint_str_digits (d : Decimal.uint) :
  Forall (fun c => ascii_digit c = true) (uint_str d).
Proof. induction d; simpl; constructor; done. Qed.

Lemma to_uint_not_nil (n : nat) : Nat.to_uint n <> Decimal.Nil.
Proof.
  pose proof (DecimalNat.Unsigned.to_of (Nat.to_uint n)) as H.
  rewrite DecimalNat.Unsigned.of_to in H. rewrite H.
  apply DecimalFacts.unorm_nonnil.
Qed.

Lemma nat_str_digits (n : nat) :
  nat_str n <> [] /\ Forall (fun c => ascii_digit c = true) (nat_str n).
Proof.
  split; [|apply uint_str_digits].
  unfold nat_str. pose proof (to_uint_not_nil n) as Hn.
  destruct (Nat.to_uint n); simpl; done.
Qed.

Lemma channel_name_word (prefix : pystr) (db : UnicodeDB) (i : nat) :
  Forall (fun c => is_word db c = true) prefix ->
  channel_name prefix i <> [] /\
  Forall (fun c => is_word db c = true) (channel_name prefix i).
Proof.
  intros Hp. unfold channel_name. destruct (nat_str_digits (i + 1)) as [Hne Hd].
  split.
  - intros [_ H]%app_eq_nil. done.
  - apply Forall_app. split; [done|].
    eapply Forall_impl; [exact Hd|]. intros c Hc.
    by destruct (ascii_digit_classes db c Hc) as (_ & ? & _).
Qed.

Lemma parse_line_with_names (prefix : pystr) (db : UnicodeDB) (line : pystr) :
  Forall (fun c => is_word db c = true) prefix ->
  exists b,
    parse_line_with prefix db line = Ok b /\
    forall name, is_Some (b !! name) ->
      name <> [] /\ Forall (fun c => is_word db c = true) name.
Proof.
  intros Hp. rewrite parse_line_with_unfold. case_bool_decide as Hs.
  - exists ∅. split; [done|]. intros name [v Hv]. by rewrite lookup_empty in Hv.
  - destruct (labeled_matches db line) as [|m ms] eqn:Hms.
    + destruct (positional_loop_spec prefix db
                  (Re.split (separator_pattern db) (strip db line)) ∅)
        as (b & Hb & _ & Hnames).
      exists b. split; [done|]. intros name [v Hv].
      destruct (Hnames name) as [Heq|(i & _ & ->)].
      * by rewrite Heq, lookup_empty in Hv.
      * by apply channel_name_word.
    + rewrite <- Hms.
      destruct (labeled_loop_spec db (labeled_matches db line) ∅
                  (labeled_matches_convert db (strip db line))) as (b & Hb & _).
      exists b. split; [done|]. intros name Hn.
      destruct (labeled_loop_names db _ _ _ Hb name Hn) as [[v Hv]|(m' & Hin & <-)].
      * by rewrite lookup_empty in Hv.
      * apply findall_from_sound in Hin as [w Hw].
        apply derives_labeled in Hw as (label & tok & -> & Hne & Hw & _).
        done.
Qed.

(** X2: every name in a batch returned by [parse_line] (prefix [CH]) or by
    [SerialPlotter.parse_line] (prefix [Kanal_]) is a non-empty string of
    word characters ([\w]): no batch has an empty name or a name holding a
    blank, a separator, [:] or [=]. *)
Theorem batch_names_are_words (db : UnicodeDB) (line : pystr) :
  (exists b,
     parse_line db line = Ok b /\
     forall name, is_Some (b !! name) ->
       name <> [] /\ Forall (fun c => is_word db c = true) name) /\
  (exists b,
     SerialPlotter_parse_line db line = Ok b /\
     forall name, is_Some (b !! name) ->
       name <> [] /\ Forall (fun c => is_word db c = true) name).
Proof.
  split; apply parse_line_with_names.
  - repeat constructor.
  - repeat constructor.
Qed.

(** ** The session: what changes the recorded data *)

Lemma add_values_raises (values : batch) (g : PlotextGraph) (e : exn) :
  add_values values g = Raise e -> e = ValueError.
Proof.
  unfold add_values.
  set (f := fun (label : pystr) (value : pyfloat)
                (acc : result (gmap pystr (deque (option pyfloat)))) => _).
  assert (Hfold : forall e', map_fold f (Ok (data_series g)) values = Raise e' ->
                        e' = ValueError).
  { apply (map_fold_weak_ind
             (fun r (_ : batch) => forall e', r = Raise e' -> e' = ValueError)).
    - done.
    - intros label v m r _ IH e'. unfold f. destruct r as [ds|x]; simpl.
      + destruct (ds !! label); simpl; [done|].
        unfold deque_new. destruct (max_points g <? 0); simpl; [|done].
        by intros [= <-].
      + intros [= <-]. by apply IH. }
  destruct (map_fold f (Ok (data_series g)) values) as [ds|x] eqn:Hf; simpl; [done|].
  intros [= <-]. by apply Hfold.
Qed.

Lemma parse_line_ok (db : UnicodeDB) (line : pystr) :
  exists b, parse_line db line = Ok b.
Proof.
  destruct (parse_line_with_values (str "CH") db line) as (b & Hb & _). by exists b.
Qed.

Lemma process_line_raises (db : UnicodeDB) (t : time) (line : pystr)
    (a : SerialPlotterTUI) (e : exn) :
  process_line db t line a = Raise e -> e = ValueError.
Proof.
  unfold process_line. destruct (parse_line_ok db line) as [b ->]. simpl.
  case_bool_decide; [done|].
  destruct (add_values b _) as [g|x] eqn:Hg; simpl; [done|].
  intros [= <-]. by eapply add_values_raises.
Qed.

Lemma process_line_unfold (db : UnicodeDB) (t : time) (line : pystr)
    (a a' : SerialPlotterTUI) :
  process_line db t line a = Ok a' ->
  exists values,
    parse_line db line = Ok values /\
    serial_conn a' = serial_conn a /\ running a' = running a /\
    paused a' = paused a /\
    serial_log a' = serial_log a ++ [LogLine t line] /\
    ((values = ∅ /\ recorded a' = recorded a) \/
     (values <> ∅ /\
      exists g, add_values values (graph a) = Ok g /\
        recorded a' =
          (g, update_values values (current_values a),
           session_data a ++ [(t, line, values)], all_labels a ∪ dom values))).
Proof.
  unfold process_line. destruct (parse_line_ok db line) as [b Hb]. rewrite Hb. simpl.
  case_bool_decide as Hv.
  - intros [= <-]. exists b. repeat split; try done. by left.
  - destruct (add_values b _) as [g|x] eqn:Hg; simpl; [|done].
    intros [= <-]. exists b. repeat split; try done. right. split; [done|].
    by exists g.
Qed.

Lemma mark_disconnected_recorded (st : loop_state) :
  recorded (app (mark_disconnected st)) = recorded (app st) /\
  serial_conn (app (mark_disconnected st)) = serial_conn (app st) /\
  running (app (mark_disconnected st)) = running (app st) /\
  paused (app (mark_disconnected st)) = paused (app st) /\
  last_reconnect_attempt (mark_disconnected st) = last_reconnect_attempt st.
Proof. unfold mark_disconnected. by destruct (disconnected st). Qed.

Lemma read_handlers_recorded (x : exn) (st : loop_state) :
  recorded (app (read_handlers x st)) = recorded (app st).
Proof.
  destruct (mark_disconnected_recorded st) as (H & _).
  destruct x; simpl; done.
Qed.

Lemma step_recorded (db : UnicodeDB) (ev : event) (st : loop_state) :
  recorded (app (step db ev st)) = recorded (app st) \/
  exists e raw,
    ev = Iteration e /\ read e = Received raw /\ strip db raw <> [] /\
    running (app st) = true /\ paused (app st) = false /\
    connected (app st) = true /\
    process_line db (now e) (strip db raw) (app st) = Ok (app (step db ev st)).
Proof.
  destruct ev as [e| | |]; simpl; try (by left).
  unfold loop_iteration.
  destruct (running (app st)) eqn:Hr; simpl; [|by left].
  destruct (paused (app st)) eqn:Hp; [by left|].
  destruct (serial_conn (app st)) as [[[|]]|] eqn:Hc.
  - destruct (read e) as [|raw|x] eqn:Hread; [by left| |left; apply read_handlers_recorded].
    case_bool_decide as Hs; [by left|].
    destruct (process_line db (now e) (strip db raw) (app st)) as [a|x] eqn:Hpl.
    + right. exists e, raw. unfold connected. rewrite Hc. done.
    + left. apply read_handlers_recorded.
  - left. destruct (Qle_bool _ _); [|done].
    match goal with |- context [mark_disconnected ?s] =>
      destruct (mark_disconnected_recorded s) as (H & _); simpl in H;
      destruct (reconnect_ok e); simpl; [exact H|exact H] end.
  - left. destruct (Qle_bool _ _); [|done].
    match goal with |- context [mark_disconnected ?s] =>
      destruct (mark_disconnected_recorded s) as (H & _); simpl in H;
      destruct (reconnect_ok e); simpl; [exact H|exact H] end.
Qed.

(** X3: one event of a session (a turn of [read_serial_loop], or the key
    of [action_clear], [action_pause] or [action_quit]) leaves the store,
    the latest values, the session data and the known names as they are,
    unless it is a turn of a running, unpaused, connected loop that receives
    a non-blank line, in which case the new state is that of [process_line]
    on the stripped line.  So a lost link, a reconnect, a read error or a
    key never alter what has been recorded. *)
Theorem recorded_changes_only_on_a_line (db : UnicodeDB) (ev : event) (st : loop_state) :
  recorded (app (step db ev st)) = recorded (app st) \/
  exists e raw,
    ev = Iteration e /\ read e = Received raw /\ strip db raw <> [] /\
    running (app st) = true /\ paused (app st) = false /\
    connected (app st) = true /\
    process_line db (now e) (strip db raw) (app st) = Ok (app (step db ev st)).
Proof.
  destruct ev as [e| | |]; simpl; try (by left).
  unfold loop_iteration.
  destruct (running (app st)) eqn:Hr; simpl; [|by left].
  destruct (paused (app st)) eqn:Hp; [by left|].
  destruct (serial_conn (app st)) as [[[|]]|] eqn:Hc.
  - destruct (read e) as [|raw|x] eqn:Hread; [by left| |left; apply read_handlers_recorded].
    case_bool_decide as Hs; [by left|].
    destruct (process_line db (now e) (strip db raw) (app st)) as [a|x] eqn:Hpl.
    + right. exists e, raw. unfold connected. rewrite Hc. done.
    + left. apply read_handlers_recorded.
  - left. destruct (Qle_bool _ _); [|done].
    match goal with |- context [mark_disconnected ?s] =>
      destruct (mark_disconnected_recorded s) as (H & _); simpl in H;
      destruct (reconnect_ok e); simpl; [exact H|exact H] end.
  - left. destruct (Qle_bool _ _); [|done].
    match goal with |- context [mark_disconnected ?s] =>
      destruct (mark_disconnected_recorded s) as (H & _); simpl in H;
      destruct (reconnect_ok e); simpl; [exact H|exact H] end.
Qed.

(** ** The session: the records agree *)

Lemma add_values_dom (values : batch) (g g' : PlotextGraph) :
  0 <= max_points g ->
  add_values values g = Ok g' ->
  dom (data_series g') = dom (data_series g) ∪ dom values /\
  sample_count g' = S (sample_count g) /\
  max_points g' = max_points g.
Proof.
  intros Hcap Hg. destruct (add_values_spec values g Hcap) as (g2 & Hg2 & Hm & Hs & _ & Hl).
  rewrite Hg in Hg2. injection Hg2 as <-. split; [|done].
  apply set_eq. intros name. rewrite elem_of_union, !elem_of_dom, Hl.
  destruct (values !! name) as [v|] eqn:Hv.
  - split; [intros _; right; by eexists|intros _; by eexists].
  - rewrite fmap_is_Some. split; [by left|]. intros [H|[v' Hv']]; [done|done].
Qed.

Lemma process_line_consistent (db : UnicodeDB) (t : time) (line : pystr)
    (a a' : SerialPlotterTUI) :
  0 <= max_points (graph a) ->
  session_consistent db a ->
  process_line db t line a = Ok a' ->
  0 <= max_points (graph a') /\ session_consistent db a'.
Proof.
  intros Hcap (H1 & H2 & H3 & H4) Hpl.
  apply process_line_unfold in Hpl as (values & Hparse & _ & _ & _ & _ & Hrec).
  unfold recorded in Hrec.
  destruct Hrec as [[_ Hrec]|[Hne (g & Hg & Hrec)]].
  - injection Hrec as Eg Ec Es El. unfold session_consistent.
    rewrite Eg, Ec, Es, El. done.
  - injection Hrec as Eg Ec Es El.
    destruct (add_values_dom _ _ _ Hcap Hg) as (Hd & Hs & Hm).
    unfold session_consistent. rewrite Eg, Ec, Es, El. split; [lia|].
    split; [|split; [|split]].
    + unfold update_values. rewrite dom_union_L, H1. apply (comm_L (∪)).
    + rewrite Hd, H2. done.
    + rewrite length_app, Hs, H3. simpl. lia.
    + apply Forall_app. split; [done|]. constructor; [|done]. done.
Qed.

Lemma recorded_consistent (db : UnicodeDB) (a a' : SerialPlotterTUI) :
  recorded a' = recorded a ->
  0 <= max_points (graph a) /\ session_consistent db a ->
  0 <= max_points (graph a') /\ session_consistent db a'.
Proof.
  unfold recorded, session_consistent. intros [= -> -> -> ->]. done.
Qed.

Lemma step_consistent (db : UnicodeDB) (ev : event) (st : loop_state) :
  0 <= max_points (graph (app st)) /\ session_consistent db (app st) ->
  0 <= max_points (graph (app (step db ev st))) /\
  session_consistent db (app (step db ev st)).
Proof.
  intros H.
  destruct (step_recorded db ev st)
    as [Hrec|(e & raw & _ & _ & _ & _ & _ & _ & Hpl)].
  - by eapply recorded_consistent.
  - destruct H. by eapply process_line_consistent.
Qed.

Lemma run_consistent (db : UnicodeDB) (evs : list event) (st : loop_state) :
  0 <= max_points (graph (app st)) /\ session_consistent db (app st) ->
  0 <= max_points (graph (app (run db evs st))) /\
  session_consistent db (app (run db evs st)).
Proof.
  revert st. induction evs as [|ev evs IH]; intros st H; simpl; [done|].
  apply IH. by apply step_consistent.
Qed.

Lemma on_mount_consistent (db : UnicodeDB) (cap : Z) (ok : bool) (a : SerialPlotterTUI) :
  SerialPlotterTUI_init cap = Ok a ->
  0 <= max_points (graph (app (on_mount ok a))) /\
  session_consistent db (app (on_mount ok a)).
Proof.
  unfold SerialPlotterTUI_init, PlotextGraph_init, deque_new.
  destruct (cap <? 0) eqn:Hc; simpl; [done|]. intros [= <-].
  assert (0 <= cap) by lia.
  unfold session_consistent. destruct ok; simpl; rewrite !dom_empty_L; done.
Qed.

(** X4: at every point of a session started by [on_mount] on a fresh
    application, the names known to the export ([all_labels]), the keys of
    the table of latest values and the keys of the series of the store are
    the same set. *)
Theorem session_names_agree (db : UnicodeDB) (cap : Z) (ok : bool)
    (a : SerialPlotterTUI) (evs : list event) :
  SerialPlotterTUI_init cap = Ok a ->
  let a' := app (run db evs (on_mount ok a)) in
  all_labels a' = dom (current_values a') /\
  all_labels a' = dom (data_series (graph a')).
Proof.
  intros Ha a'.
  destruct (run_consistent db evs _ (on_mount_consistent db cap ok a Ha))
    as (_ & H1 & H2 & _).
  done.
Qed.

Lemma session_names_agree_witness :
  let a' := app (run ascii_db [Iteration env_a1; KeyClear] (on_mount true fresh_app)) in
  all_labels a' = dom (current_values a') /\
  all_labels a' = dom (data_series (graph a')).
Proof.
  apply (session_names_agree ascii_db 100 true fresh_app
           [Iteration env_a1; KeyClear]).
  reflexivity.
Defined.

(** X5: at every point of a session started by [on_mount] on a fresh
    application, [session_data] has exactly one row per tick of the store
    (whatever the capacity of the window), and every row holds a non-empty
    batch that is what [parse_line] returns on the row's raw line. *)
Theorem export_rows_faithful (db : UnicodeDB) (cap : Z) (ok : bool)
    (a : SerialPlotterTUI) (evs : list event) :
  SerialPlotterTUI_init cap = Ok a ->
  let a' := app (run db evs (on_mount ok a)) in
  length (session_data a') = sample_count (graph a') /\
  Forall (row_faithful db) (session_data a').
Proof.
  intros Ha a'.
  destruct (run_consistent db evs _ (on_mount_consistent db cap ok a Ha))
    as (_ & _ & _ & H3 & H4).
  done.
Qed.

Lemma export_rows_faithful_witness :
  let a' := app (run ascii_db [Iteration env_a1; KeyClear] (on_mount true fresh_app)) in
  length (session_data a') = sample_count (graph a') /\
  Forall (row_faithful ascii_db) (session_data a').
Proof.
  apply (export_rows_faithful ascii_db 100 true fresh_app
           [Iteration env_a1; KeyClear]).
  reflexivity.
Defined.

(** ** [process_line]: the effect of one line *)



(** ** The session: pausing, quitting and the state of the link *)

Lemma idle_iterations (db : UnicodeDB) (envs : list env) (st : loop_state) :
  running (app st) = false \/ paused (app st) = true ->
  read_serial_loop db envs st = st.
Proof.
  intros H. unfold read_serial_loop, run.
  induction envs as [|e envs IH]; simpl; [done|].
  assert (loop_iteration db e st = st) as ->; [|exact IH].
  unfold loop_iteration. destruct H as [-> | ->]; simpl; [done|].
  by destruct (running (app st)).
Qed.

(** X7: pausing, any number of turns of the loop, then resuming, leaves the
    state as it was but for the two log lines "paused" and "resumed":
    nothing the device offers during a pause is read, no reconnect is
    attempted and no notification is given. *)
Theorem pause_then_resume (db : UnicodeDB) (envs : list env)
    (st : loop_state) :
  paused (app st) = false ->
  run db (KeyPause :: (Iteration <$> envs) ++ [KeyPause]) st =
  set_app (log_write LogResumed (log_write LogPaused (app st))) st.
Proof.
  intros Hp. unfold run. simpl. rewrite foldl_app. simpl.
  pose proof (idle_iterations db envs (set_app (action_pause (app st)) st)) as Hidle.
  unfold read_serial_loop, run in Hidle. rewrite Hidle.
  - unfold set_app, action_pause, log_write, set_serial_log. simpl.
    rewrite Hp. simpl. done.
  - right. simpl. by rewrite Hp.
Qed.

Lemma pause_then_resume_witness :
  run ascii_db (KeyPause :: (Iteration <$> [env_a1; env_unplugged]) ++ [KeyPause])
    (on_mount true fresh_app) =
  set_app (log_write LogResumed
             (log_write LogPaused (app (on_mount true fresh_app))))
    (on_mount true fresh_app).
Proof.
  apply (pause_then_resume ascii_db [env_a1; env_unplugged]
           (on_mount true fresh_app)).
  reflexivity.
Defined.

(** X8: after [action_quit] every further turn of [read_serial_loop] does
    nothing, the connection is not open any more, and what had been
    recorded is kept. *)
Theorem quit_stops_acquisition (db : UnicodeDB) (envs : list env) (st : loop_state) :
  let st' := step db KeyQuit st in
  read_serial_loop db envs st' = st' /\
  connected (app st') = false /\
  recorded (app st') = recorded (app st).
Proof.
  simpl. split; [|split].
  - apply idle_iterations. by left.
  - unfold connected. simpl. by destruct (serial_conn (app st)).
  - done.
Qed.

Lemma mark_disconnected_conn (st : loop_state) :
  serial_conn (app (mark_disconnected st)) = serial_conn (app st).
Proof. by destruct (mark_disconnected_recorded st) as (_ & ? & _). Qed.

(** X9: an open connection is given up by one event only if the event is
    [action_quit], or a turn of the loop whose read raises
    [serial.SerialException] or [OSError]: an empty buffer, any other
    exception, a line that cannot be parsed, pausing and clearing keep the
    connection. *)
Theorem link_dropped_only_on_link_error (db : UnicodeDB) (ev : event) (st : loop_state) :
  connected (app st) = true ->
  connected (app (step db ev st)) = false ->
  ev = KeyQuit \/
  exists e x, ev = Iteration e /\ read e = ReadRaises x /\ is_link_error x = true.
Proof.
  unfold connected at 1. intros Hc Hd.
  destruct (serial_conn (app st)) as [[[|]]|] eqn:Hconn; try done. clear Hc.
  destruct ev as [e| | |]; [|exfalso|exfalso|by left];
    unfold connected in Hd; simpl in Hd; try (by rewrite Hconn in Hd).
  right. unfold loop_iteration in Hd.
  assert (Hsame : connected (app st) = true) by (unfold connected; by rewrite Hconn).
  unfold connected in Hsame.
  destruct (running (app st)); simpl in Hd; [|by rewrite Hd in Hsame].
  destruct (paused (app st)); [by rewrite Hd in Hsame|].
  rewrite Hconn in Hd.
  assert (Hh : forall x,
    match serial_conn (app (read_handlers x st)) with
    | Some {| is_open := true |} => true | _ => false end = false ->
    is_link_error x = true).
  { intros x. destruct x; simpl; try done; by rewrite Hconn. }
  destruct (read e) as [|raw|x] eqn:Hread.
  - by rewrite Hd in Hsame.
  - case_bool_decide; [by rewrite Hd in Hsame|].
    destruct (process_line db (now e) (strip db raw) (app st)) as [a|x] eqn:Hpl.
    + apply process_line_unfold in Hpl as (_ & _ & Hc' & _). simpl in Hd.
      by rewrite Hc', Hconn in Hd.
    + pose proof (process_line_raises _ _ _ _ _ Hpl) as ->.
      by apply Hh in Hd.
  - exists e, x. split; [done|]. split; [done|]. by apply Hh.
Qed.

Lemma link_dropped_only_on_link_error_witness :
  Iteration env_unplugged = KeyQuit \/
  exists e x, Iteration env_unplugged = Iteration e /\
    read e = ReadRaises x /\ is_link_error x = true.
Proof.
  apply (link_dropped_only_on_link_error ascii_db (Iteration env_unplugged)
           (on_mount true fresh_app)); reflexivity.
Defined.

Lemma loop_iteration_reconnect (db : UnicodeDB) (e : env) (st : loop_state) :
  running (app st) = true -> paused (app st) = false ->
  connected (app st) = false ->
  loop_iteration db e st =
  if Qle_bool reconnect_interval (now e - last_reconnect_attempt st) then
    let st1 :=
      mark_disconnected
        {| app := app st; disconnected := disconnected st;
           last_reconnect_attempt := now e;
           notifications := notifications st |} in
    if reconnect_ok e then
      show_reconnected
        (set_disconnected false
           (set_app (set_serial_conn (Some {| is_open := true |}) (app st1)) st1))
    else st1
  else st.
Proof.
  intros Hr Hp Hc. unfold loop_iteration, connected in *. rewrite Hr, Hp. simpl.
  destruct (serial_conn (app st)) as [[[|]]|]; [done| |];
    destruct (Qle_bool _ _); try done; unfold try_reconnect;
    by destruct (reconnect_ok e).
Qed.

(** X10: a connection that is not open becomes open by one event only if
    the event is a turn of a running, unpaused loop, taken at least
    [reconnect_interval] (one second) after the last reconnect attempt, in
    which [_try_reconnect] succeeds; this turn records the time of the
    attempt, clears the flag [disconnected], ends with the notification
    [_show_reconnected], and leaves what had been recorded as it was. *)
Theorem link_restored_only_by_reconnect (db : UnicodeDB) (ev : event) (st : loop_state) :
  connected (app st) = false ->
  connected (app (step db ev st)) = true ->
  exists e,
    ev = Iteration e /\ reconnect_ok e = true /\
    running (app st) = true /\ paused (app st) = false /\
    (reconnect_interval <= now e - last_reconnect_attempt st)%Q /\
    last_reconnect_attempt (step db ev st) = now e /\
    disconnected (step db ev st) = false /\
    last (notifications (step db ev st)) = Some Reconnected /\
    recorded (app (step db ev st)) = recorded (app st).
Proof.
  intros Hc Hd.
  destruct ev as [e| | |]; simpl in Hd.
  2-3: exfalso; unfold connected in *; simpl in Hd; by rewrite Hc in Hd.
  2: exfalso; unfold connected in *; simpl in Hd;
     by destruct (serial_conn (app st)) as [[[|]]|].
  exists e. split; [done|]. simpl.
  destruct (running (app st)) eqn:Hr.
  2:{ unfold loop_iteration in Hd. rewrite Hr in Hd. simpl in Hd. by rewrite Hc in Hd. }
  destruct (paused (app st)) eqn:Hp.
  { unfold loop_iteration in Hd. rewrite Hr, Hp in Hd. simpl in Hd. by rewrite Hc in Hd. }
  rewrite (loop_iteration_reconnect db e st Hr Hp Hc) in Hd |- *.
  destruct (Qle_bool reconnect_interval (now e - last_reconnect_attempt st)) eqn:Hq;
    [|by rewrite Hc in Hd].
  apply Qle_bool_iff in Hq. cbv zeta in Hd |- *.
  match type of Hd with context [mark_disconnected ?s] =>
    destruct (mark_disconnected_recorded s) as (Hrec & Hconn & _ & _ & Hlast);
    set (st1 := mark_disconnected s) in * end.
  simpl in Hrec, Hconn, Hlast.
  destruct (reconnect_ok e).
  - repeat split; try done. simpl. by rewrite last_snoc.
  - exfalso. unfold connected in Hd, Hc. rewrite Hconn in Hd. by rewrite Hc in Hd.
Qed.

Lemma link_restored_only_by_reconnect_witness :
  exists e,
    Iteration env_replugged = Iteration e /\ reconnect_ok e = true /\
    running (app (on_mount false fresh_app)) = true /\
    paused (app (on_mount false fresh_app)) = false /\
    (reconnect_interval <= now e - last_reconnect_attempt (on_mount false fresh_app))%Q /\
    last_reconnect_attempt
      (step ascii_db (Iteration env_replugged) (on_mount false fresh_app)) = now e /\
    disconnected
      (step ascii_db (Iteration env_replugged) (on_mount false fresh_app)) = false /\
    last (notifications
            (step ascii_db (Iteration env_replugged) (on_mount false fresh_app))) =
      Some Reconnected /\
    recorded (app (step ascii_db (Iteration env_replugged) (on_mount false fresh_app))) =
      recorded (app (on_mount false fresh_app)).
Proof.
  apply (link_restored_only_by_reconnect ascii_db (Iteration env_replugged)
           (on_mount false fresh_app)); reflexivity.
Defined.

(** ** Drawing: the points of a series *)

Lemma lastn_fmap {A B} (f : A -> B) (k : nat) (l : list A) :
  lastn k (f <$> l) = f <$> lastn k l.
Proof. unfold lastn. by rewrite length_fmap, fmap_drop. Qed.
















(** The series of [b], first seen at tick 2, is drawn at tick 1 by the TUI
    and at tick 2 by [serial_plotter.py]. *)
Example render_late_series :
  exists g series,
    run_batches 100 [bA1; bA2B3] = Ok g /\
    render g = Plotted series /\
    series !! str "b" = Some ([(1%nat, float_of_Z 3)], float_of_Z 3) /\
    line_data g (str "b") = Some [(2%nat, float_of_Z 3)].
Proof.
  eexists _, _. split; [vm_compute; reflexivity|].
  split; [vm_compute; reflexivity|]. split; vm_compute; reflexivity.
Qed.

(** ** The export *)

Lemma str_leb_total (s1 s2 : pystr) : str_leb s1 s2 = true \/ str_leb s2 s1 = true.
Proof.
  revert s2. induction s1 as [|c1 r1 IH]; intros [|c2 r2]; simpl; auto.
  destruct (N.ltb_spec c1 c2), (N.ltb_spec c2 c1); auto; lia.
Qed.

Lemma str_leb_trans (s1 s2 s3 : pystr) :
  str_leb s1 s2 = true -> str_leb s2 s3 = true -> str_leb s1 s3 = true.
Proof.
  revert s2 s3. induction s1 as [|c1 r1 IH]; intros [|c2 r2] [|c3 r3]; simpl; try done.
  destruct (N.ltb_spec c1 c2), (N.ltb_spec c2 c1), (N.ltb_spec c2 c3),
    (N.ltb_spec c3 c2), (N.ltb_spec c1 c3), (N.ltb_spec c3 c1);
    try done; try lia.
  apply IH.
Qed.

Lemma str_leb_antisym (s1 s2 : pystr) :
  str_leb s1 s2 = true -> str_leb s2 s1 = true -> s1 = s2.
Proof.
  revert s2. induction s1 as [|c1 r1 IH]; intros [|c2 r2]; simpl; try done.
  destruct (N.ltb_spec c1 c2), (N.ltb_spec c2 c1); try done; try lia.
  intros H1 H2. f_equal; [lia|by apply IH].
Qed.

Lemma str_le_total : Total str_le.
Proof. intros s1 s2. apply str_leb_total. Qed.

Lemma str_le_trans : Transitive str_le.
Proof. intros s1 s2 s3. apply str_leb_trans. Qed.

Lemma sorted_spec (labels : gset pystr) :
  StronglySorted str_le (sorted labels) /\
  NoDup (sorted labels) /\
  forall name, name ∈ sorted labels <-> name ∈ labels.
Proof.
  unfold sorted. split; [|split].
  - apply StronglySorted_merge_sort; [exact str_le_trans|exact str_le_total].
  - rewrite merge_sort_Permutation. apply NoDup_elements.
  - intros name. by rewrite merge_sort_Permutation, elem_of_elements.
Qed.

(** X14: when there are session data, [action_save_csv] writes a table
    whose field names are [timestamp], [raw_line] and then every known
    name exactly once, in ascending order of [str], with one row per
    recorded data point, each row having one cell per field name. *)
Theorem csv_table_shape (a : SerialPlotterTUI) :
  session_data a <> [] ->
  exists labels rows,
    action_save_csv true a = Saved ([str "timestamp"; str "raw_line"] ++ labels) rows /\
    StronglySorted str_le labels /\ NoDup labels /\
    (forall name, name ∈ labels <-> name ∈ all_labels a) /\
    length rows = length (session_data a) /\
    Forall (fun r => length r = (2 + size (all_labels a))%nat) rows.
Proof.
  intros Hne. unfold action_save_csv.
  destruct (session_data a) as [|dp dps] eqn:Hsd; [done|].
  destruct (sorted_spec (all_labels a)) as (Hs & Hnd & Hin).
  eexists _, _. split; [done|]. repeat split; try done.
  - by apply Hin.
  - by apply Hin.
  - by rewrite length_fmap.
  - apply Forall_fmap, Forall_forall. intros row _. simpl.
    rewrite length_fmap. unfold sorted.
    by rewrite merge_sort_Permutation.
Qed.

Lemma data_point_lookup (row : time * pystr * batch) (key : pystr) :
  default (CellStr []) (data_point row !! key) = expected_cell row key.
Proof.
  unfold data_point, expected_cell. rewrite lookup_union, lookup_fmap.
  destruct (row.2 !! key) as [v|]; simpl.
  - by destruct (_ !! key).
  - case_bool_decide as Ht.
    + subst key. rewrite lookup_insert_ne by done. by rewrite lookup_singleton_eq.
    + case_bool_decide as Hr.
      * subst key. by rewrite lookup_insert_eq.
      * rewrite lookup_insert_ne by done. by rewrite lookup_singleton_ne.
Qed.

Lemma process_line_rows_known (db : UnicodeDB) (t : time) (line : pystr)
    (a a' : SerialPlotterTUI) :
  rows_known a -> process_line db t line a = Ok a' -> rows_known a'.
Proof.
  intros Hk Hpl.
  apply process_line_unfold in Hpl as (values & _ & _ & _ & _ & _ & Hrec).
  unfold recorded in Hrec. unfold rows_known in *.
  destruct Hrec as [[_ Hrec]|[_ (g & _ & Hrec)]]; injection Hrec as _ _ Es El;
    rewrite Es, El; [done|].
  apply Forall_app. split.
  - eapply Forall_impl; [exact Hk|]. intros row Hrow. simpl in *.
    etrans; [exact Hrow|]. apply union_subseteq_l.
  - constructor; [|done]. simpl. apply union_subseteq_r.
Qed.

Lemma run_rows_known (db : UnicodeDB) (evs : list event) (st : loop_state) :
  rows_known (app st) -> rows_known (app (run db evs st)).
Proof.
  revert st. induction evs as [|ev evs IH]; intros st H; simpl; [done|].
  apply IH.
  destruct (step_recorded db ev st)
    as [Hrec|(e & raw & _ & _ & _ & _ & _ & _ & Hpl)].
  - unfold recorded in Hrec. injection Hrec as _ _ Es El.
    unfold rows_known. by rewrite Es, El.
  - by eapply process_line_rows_known.
Qed.

Lemma action_save_csv_saved (a : SerialPlotterTUI) (header : list pystr)
    (rows : list (list cell)) :
  action_save_csv true a = Saved header rows ->
  session_data a <> [] /\
  header = [str "timestamp"; str "raw_line"] ++ sorted (all_labels a) /\
  rows = (fun dp => (fun key => default (CellStr []) (data_point dp !! key)) <$> header)
           <$> session_data a.
Proof.
  unfold action_save_csv. destruct (session_data a) as [|dp dps]; [done|].
  intros H. split; [done|].
  pose proof (f_equal (fun r => match r with Saved h _ => h | _ => [] end) H) as Hh.
  pose proof (f_equal (fun r => match r with Saved _ r => r | _ => [] end) H) as Hr.
  cbv beta iota in Hh, Hr. split; [done|]. by rewrite <- Hh, <- Hr.
Qed.

Lemma csv_cell (a : SerialPlotterTUI) (header : list pystr) (rows : list (list cell))
    (i j : nat) (row : time * pystr * batch) (key : pystr) :
  action_save_csv true a = Saved header rows ->
  session_data a !! i = Some row ->
  header !! j = Some key ->
  exists r, rows !! i = Some r /\ r !! j = Some (expected_cell row key).
Proof.
  intros (_ & _ & ->)%action_save_csv_saved Hrow Hkey.
  eexists. split.
  - rewrite list_lookup_fmap, Hrow. done.
  - rewrite list_lookup_fmap, Hkey. simpl. by rewrite data_point_lookup.
Qed.

(** X15: in the table [action_save_csv] writes for a session started by
    [on_mount] on a fresh application, the row of a data point holds, in
    the column of each field name, the value its line gave to that name,
    else the time or the raw line in the columns of these names, else the
    empty string; and every value of every recorded line is in the table,
    in the column of its name. *)
Theorem csv_keeps_every_value (db : UnicodeDB) (cap : Z) (ok : bool)
    (a : SerialPlotterTUI) (evs : list event) :
  SerialPlotterTUI_init cap = Ok a ->
  let a' := app (run db evs (on_mount ok a)) in
  match action_save_csv true a' with
  | Saved header rows =>
      length rows = length (session_data a') /\
      forall i row,
        session_data a' !! i = Some row ->
        exists r,
          rows !! i = Some r /\
          (forall j key, header !! j = Some key ->
             r !! j = Some (expected_cell row key)) /\
          (forall label v, row.2 !! label = Some v ->
             exists j, header !! j = Some label /\ r !! j = Some (CellFloat v))
  | NothingToSave => session_data a' = []
  | SaveFailed => False
  end.
Proof.
  intros Ha a'.
  destruct (action_save_csv true a') as [|header rows|] eqn:Hsave.
  - unfold action_save_csv in Hsave. by destruct (session_data a').
  - split.
    { destruct (action_save_csv_saved a' header rows Hsave) as (_ & _ & ->).
      by rewrite length_fmap. }
    intros i row Hrow.
    assert (Hk : rows_known a').
    { apply run_rows_known. unfold SerialPlotterTUI_init in Ha.
      destruct (PlotextGraph_init cap); simpl in Ha; [|done]. injection Ha as <-.
      unfold rows_known. destruct ok; simpl; constructor. }
    destruct (action_save_csv_saved a' header rows Hsave) as (_ & Hh & _).
    assert (exists r, rows !! i = Some r) as [r Hr].
    { destruct (csv_cell a' header rows i 0 row (str "timestamp") Hsave Hrow)
        as (r & Hr & _); [by rewrite Hh|]. by exists r. }
    exists r. split; [done|]. split.
    + intros j key Hkey.
      destruct (csv_cell a' header rows i j row key Hsave Hrow Hkey) as (r' & Hr' & Hc).
      by simplify_eq.
    + intros label v Hv.
      assert (Hin : label ∈ header).
      { rewrite Hh. apply elem_of_app. right. apply sorted_spec.
        unfold rows_known in Hk. rewrite Forall_forall in Hk.
        apply (Hk row); [by eapply list_elem_of_lookup_2|].
        apply elem_of_dom. by eexists. }
      apply list_elem_of_lookup in Hin as [j Hj]. exists j. split; [done|].
      destruct (csv_cell a' header rows i j row label Hsave Hrow Hj) as (r' & Hr' & Hc).
      simplify_eq. rewrite Hc. unfold expected_cell. by rewrite Hv.
  - unfold action_save_csv in Hsave. by destruct (session_data a').
Qed.

Lemma csv_keeps_every_value_witness :
  let a' := app (run ascii_db [Iteration env_a1; KeyClear] (on_mount true fresh_app)) in
  match action_save_csv true a' with
  | Saved header rows =>
      length rows = length (session_data a') /\
      forall i row,
        session_data a' !! i = Some row ->
        exists r,
          rows !! i = Some r /\
          (forall j key, header !! j = Some key ->
             r !! j = Some (expected_cell row key)) /\
          (forall label v, row.2 !! label = Some v ->
             exists j, header !! j = Some label /\ r !! j = Some (CellFloat v))
  | NothingToSave => session_data a' = []
  | SaveFailed => False
  end.
Proof.
  apply (csv_keeps_every_value ascii_db 100 true fresh_app [Iteration env_a1; KeyClear]).
  reflexivity.
Defined.

Lemma csv_table_shape_witness :
  exists labels rows,
    action_save_csv true
      (app (run ascii_db [Iteration env_a1] (on_mount true fresh_app))) =
      Saved ([str "timestamp"; str "raw_line"] ++ labels) rows /\
    StronglySorted str_le labels /\ NoDup labels /\
    (forall name, name ∈ labels <->
       name ∈ all_labels (app (run ascii_db [Iteration env_a1] (on_mount true fresh_app)))) /\
    length rows =
      length (session_data (app (run ascii_db [Iteration env_a1] (on_mount true fresh_app)))) /\
    Forall (fun r => length r =
      (2 + size (all_labels (app (run ascii_db [Iteration env_a1]
                                    (on_mount true fresh_app)))))%nat) rows.
Proof.
  apply (csv_table_shape
           (app (run ascii_db [Iteration env_a1] (on_mount true fresh_app)))).
  vm_compute. discriminate.
Defined.

(** A label called "timestamp" takes the place of the time in its row. *)
Example csv_label_timestamp :
  action_save_csv true
    (app (run ascii_db [Iteration env_timestamp_5] (on_mount true fresh_app))) =
  Saved [str "timestamp"; str "raw_line"; str "timestamp"]
        [[CellFloat (float_of_Z 5); CellStr (str "timestamp:5"); CellFloat (float_of_Z 5)]].
Proof. vm_compute. reflexivity. Qed.

(** ** Colours *)

Lemma is_hex_digit_cases (c : N) :
  is_hex_digit c = true ->
  c ∈ [48; 49; 50; 51; 52; 53; 54; 55; 56; 57;
       97; 98; 99; 100; 101; 102; 65; 66; 67; 68; 69; 70]%N.
Proof.
  unfold is_hex_digit, in_range. intros H.
  assert (48 <= c <= 57 \/ 97 <= c <= 102 \/ 65 <= c <= 70)%N as Hc.
  { apply orb_true_iff in H as [H|H]; [apply orb_true_iff in H as [H|H]|];
      apply andb_true_iff in H as [H1 H2];
      apply N.leb_le in H1; apply N.leb_le in H2; lia. }
  rewrite !elem_of_cons. lia.
Qed.

Lemma py_int16_two_hex (db : UnicodeDB) (h1 h2 : N) :
  is_hex_digit h1 = true -> is_hex_digit h2 = true ->
  py_int16 db [h1; h2] = Ok (hex_byte h1 h2) /\ 0 <= hex_byte h1 h2 <= 255.
Proof.
  intros H1%is_hex_digit_cases H2%is_hex_digit_cases.
  rewrite !elem_of_cons, elem_of_nil in H1, H2.
  repeat (destruct H1 as [->|H1]); try done;
    repeat (destruct H2 as [->|H2]); try done;
    (split; [vm_compute; reflexivity|vm_compute; split; discriminate]).
Qed.

Lemma lstrip_chars_hashes (k : nat) (s : pystr) :
  lstrip_chars (str "#") (replicate k 35%N ++ s) = lstrip_chars (str "#") s.
Proof.
  induction k as [|k IH]; [done|].
  change (replicate (S k) 35%N ++ s) with (35%N :: (replicate k 35%N ++ s)).
  cbn [lstrip_chars].
  rewrite bool_decide_eq_true_2; [exact IH|]. by left.
Qed.

Lemma is_hex_digit_not_hash (c : N) (s : pystr) :
  is_hex_digit c = true -> lstrip_chars (str "#") (c :: s) = c :: s.
Proof.
  intros Hc. cbn [lstrip_chars]. rewrite bool_decide_eq_false_2; [done|].
  intros Hin. change (str "#") with [35%N] in Hin.
  apply list_elem_of_singleton in Hin. by subst c.
Qed.

(** X16: [hex_to_rgb] on six hexadecimal digits (of either case) behind any
    number of [#] returns the three bytes the pairs of digits spell, each
    between 0 and 255. *)
Theorem hex_to_rgb_six_digits (db : UnicodeDB) (k : nat) (h1 h2 h3 h4 h5 h6 : N) :
  forallb is_hex_digit [h1; h2; h3; h4; h5; h6] = true ->
  hex_to_rgb db (replicate k 35%N ++ [h1; h2; h3; h4; h5; h6]) =
    Ok (Some (hex_byte h1 h2, hex_byte h3 h4, hex_byte h5 h6)) /\
  0 <= hex_byte h1 h2 <= 255 /\ 0 <= hex_byte h3 h4 <= 255 /\
  0 <= hex_byte h5 h6 <= 255.
Proof.
  intros H. simpl in H. rewrite !andb_true_iff in H.
  destruct H as (H1 & H2 & H3 & H4 & H5 & H6 & _).
  destruct (py_int16_two_hex db h1 h2 H1 H2) as [E1 B1].
  destruct (py_int16_two_hex db h3 h4 H3 H4) as [E2 B2].
  destruct (py_int16_two_hex db h5 h6 H5 H6) as [E3 B3].
  split; [|done]. unfold hex_to_rgb.
  rewrite bool_decide_eq_false_2.
  2:{ intros H. apply (f_equal length) in H. rewrite length_app in H. simpl in H. lia. }
  rewrite bool_decide_eq_false_2.
  2:{ intros H. apply (f_equal length) in H. rewrite length_app in H. simpl in H. lia. }
  cbv beta iota zeta. simpl orb. cbv iota.
  rewrite lstrip_chars_hashes, is_hex_digit_not_hash by done.
  change (length [h1; h2; h3; h4; h5; h6] =? 6)%nat with true. cbv iota.
  change (take 2 [h1; h2; h3; h4; h5; h6]) with [h1; h2].
  change (take 2 (drop 2 [h1; h2; h3; h4; h5; h6])) with [h3; h4].
  change (take 2 (drop 4 [h1; h2; h3; h4; h5; h6])) with [h5; h6].
  by rewrite E1, E2, E3.
Qed.

Lemma hex_to_rgb_six_digits_witness :
  hex_to_rgb ascii_db (replicate 1 35%N ++ str "0a0E1b") =
    Ok (Some (hex_byte 48 97, hex_byte 48 69, hex_byte 49 98)) /\
  0 <= hex_byte 48 97 <= 255 /\ 0 <= hex_byte 48 69 <= 255 /\
  0 <= hex_byte 49 98 <= 255.
Proof.
  apply (hex_to_rgb_six_digits ascii_db 1 48 97 48 69 49 98). reflexivity.
Defined.

(** X17: [hex_to_rgb] gives the same result with one more leading [#], and
    it returns [None], without raising, whenever the text behind the
    leading [#]s has not exactly six characters. *)
Theorem hex_to_rgb_lenient (db : UnicodeDB) (s : pystr) :
  hex_to_rgb db (35%N :: s) = hex_to_rgb db s /\
  (length (lstrip_chars (str "#") s) <> 6%nat -> hex_to_rgb db s = Ok None).
Proof.
  split.
  - unfold hex_to_rgb at 1. rewrite !bool_decide_eq_false_2 by done.
    cbv beta iota zeta. simpl orb. cbv iota.
    change (lstrip_chars (str "#") (35%N :: s)) with (lstrip_chars (str "#") s).
    unfold hex_to_rgb. case_bool_decide as H1; [subst s; done|].
    case_bool_decide as H2; [subst s; done|]. done.
  - intros Hlen. unfold hex_to_rgb.
    destruct (bool_decide (s = []) || bool_decide (s = str "None")); [done|].
    cbv zeta. apply Nat.eqb_neq in Hlen. by rewrite Hlen.
Qed.

Lemma digit_value_nonneg (c : N) : 0 <= digit_value c.
Proof.
  unfold digit_value, in_range.
  repeat match goal with
         | |- context [(?a <=? ?b)%N] => destruct (N.leb_spec a b); simpl
         end; lia.
Qed.

Lemma scan_digits_bound (s : pystr) (prev : N) (acc z : Z) (rest : pystr) :
  scan_digits 16 s prev acc = Ok (z, rest) ->
  0 <= acc ->
  0 <= z /\ z + 1 <= (acc + 1) * 16 ^ Z.of_nat (length s).
Proof.
  revert prev acc. induction s as [|c s IH]; intros prev acc; simpl scan_digits.
  - destruct (prev =? 95)%N; [done|]. intros [= <- <-] Hacc. simpl. lia.
  - destruct (c =? 95)%N.
    + destruct (prev =? 95)%N; [done|]. intros Hs Hacc.
      destruct (IH _ _ Hs Hacc) as [Hz Hb]. split; [done|].
      rewrite length_cons, Nat2Z.inj_succ, Z.pow_succ_r by lia. nia.
    + destruct (digit_value c <? 16) eqn:Hd.
      * apply Z.ltb_lt in Hd. pose proof (digit_value_nonneg c) as Hn.
        intros Hs Hacc.
        destruct (IH _ _ Hs ltac:(lia)) as [Hz Hb]. split; [done|].
        rewrite length_cons, Nat2Z.inj_succ, Z.pow_succ_r by lia. nia.
      * destruct (prev =? 95)%N; [done|]. intros [= <- <-] Hacc.
        split; [lia|].
        assert (0 < 16 ^ Z.of_nat (length (c :: s))) by (apply Z.pow_pos_nonneg; lia).
        nia.
Qed.

Lemma skip_c_space_length (s : pystr) : (length (skip_c_space s) <= length s)%nat.
Proof.
  induction s as [|c s IH]; simpl; [done|]. destruct (is_c_space c); simpl; lia.
Qed.

Lemma to_ascii_decimal_length (db : UnicodeDB) (s : pystr) :
  (length (to_ascii_decimal db s) <= length s)%nat.
Proof.
  unfold to_ascii_decimal. destruct (forallb _ s); [done|].
  induction s as [|c s IH]; simpl; [done|].
  destruct (c <? 127)%N; simpl; [lia|].
  destruct (isspace db c); simpl; [lia|].
  destruct (todecimal db c); simpl; lia.
Qed.

Lemma PyLong_FromString16_bound (s : pystr) (z : Z) :
  (length s <= 2)%nat ->
  PyLong_FromString16 s = Ok z -> -15 <= z <= 255.
Proof.
  intros Hlen. unfold PyLong_FromString16.
  pose proof (skip_c_space_length s) as Hsk.
  set (s0 := skip_c_space s) in *.
  set (prefix := fun s1 : pystr =>
    match s1 with
    | c0 :: c1 :: s' =>
        if (c0 =? 48)%N && ((c1 =? 120)%N || (c1 =? 88)%N) then
          match s' with
          | c2 :: s'' => if (c2 =? 95)%N then s'' else s'
          | [] => s'
          end
        else s1
    | _ => s1
    end).
  assert (Hpre : forall s1, (length (prefix s1) <= length s1)%nat).
  { intros [|c0 [|c1 [|c2 s'']]]; simpl; try lia;
      destruct ((c0 =? 48)%N && ((c1 =? 120)%N || (c1 =? 88)%N)); simpl; try lia.
    destruct (c2 =? 95)%N; simpl; lia. }
  assert (Hmain : forall sign s1,
    (sign = 1 /\ (length s1 <= 2)%nat) \/ (sign = -1 /\ (length s1 <= 1)%nat) ->
    (if bool_decide (head (prefix s1) = Some 95%N) then Raise ValueError
     else
       '(z, rest) ← scan_digits 16 (prefix s1) 0 0;
       if bool_decide (rest = prefix s1) then Raise ValueError
       else if bool_decide (skip_c_space rest = []) then Ok (sign * z)
       else Raise ValueError) = Ok z -> -15 <= z <= 255).
  { intros sign s1 Hs. specialize (Hpre s1).
    case_bool_decide; [done|].
    destruct (scan_digits 16 (prefix s1) 0 0) as [[z' rest]|e] eqn:Hscan; [|done].
    simpl. case_bool_decide; [done|]. case_bool_decide; [|done].
    intros [= <-].
    destruct (scan_digits_bound _ _ _ _ _ Hscan ltac:(lia)) as [Hz Hb].
    destruct Hs as [[-> Hl]|[-> Hl]].
    - assert (16 ^ Z.of_nat (length (prefix s1)) <= 16 ^ 2)
        by (apply Z.pow_le_mono_r; lia).
      lia.
    - assert (16 ^ Z.of_nat (length (prefix s1)) <= 16 ^ 1)
        by (apply Z.pow_le_mono_r; lia).
      lia. }
  destruct s0 as [|c s'] eqn:Hs0.
  - apply (Hmain 1 []). left. simpl. split; [done|lia].
  - destruct (c =? 43)%N.
    + apply (Hmain 1 s'). left. simpl in Hsk. split; [done|lia].
    + destruct (c =? 45)%N.
      * apply (Hmain (-1) s'). right. simpl in Hsk. split; [done|lia].
      * apply (Hmain 1 (c :: s')). left. split; [done|lia].
Qed.

Lemma py_int16_bound (db : UnicodeDB) (s : pystr) (z : Z) :
  (length s <= 2)%nat -> py_int16 db s = Ok z -> -15 <= z <= 255.
Proof.
  intros Hlen. apply PyLong_FromString16_bound.
  pose proof (to_ascii_decimal_length db s). lia.
Qed.

Lemma PyLong_FromString16_raises (s : pystr) (e : exn) :
  PyLong_FromString16 s = Raise e -> e = ValueError.
Proof.
  unfold PyLong_FromString16.
  assert (Hscan : forall s prev acc e,
            scan_digits 16 s prev acc = Raise e -> e = ValueError).
  { clear. induction s as [|c s IH]; intros prev acc e; simpl.
    - destruct (prev =? 95)%N; [by intros [= <-]|done].
    - destruct (c =? 95)%N.
      + destruct (prev =? 95)%N; [by intros [= <-]|apply IH].
      + destruct (digit_value c <? 16); [apply IH|].
        destruct (prev =? 95)%N; [by intros [= <-]|done]. }
  destruct (match skip_c_space s with
            | [] => (1, skip_c_space s)
            | c :: s' => _ end) as [sign s1].
  case_bool_decide; [by intros [= <-]|].
  destruct (scan_digits 16 _ 0 0) as [[z rest]|x] eqn:Hs; simpl.
  - case_bool_decide; [by intros [= <-]|]. case_bool_decide; [done|by intros [= <-]].
  - intros [= <-]. by eapply Hscan.
Qed.

(** X18: when [hex_to_rgb] returns a tuple, each component lies between -15
    and 255 (a pair such as [-f] is accepted by [int(.., 16)], so a
    component can be negative); when it raises, the exception is
    [ValueError]; and both happen only for six characters behind the
    leading [#]s. *)
Theorem hex_to_rgb_range (db : UnicodeDB) (s : pystr) :
  match hex_to_rgb db s with
  | Ok (Some (r, g, b)) =>
      -15 <= r <= 255 /\ -15 <= g <= 255 /\ -15 <= b <= 255 /\
      length (lstrip_chars (str "#") s) = 6%nat
  | Ok None => True
  | Raise e => e = ValueError /\ length (lstrip_chars (str "#") s) = 6%nat
  end.
Proof.
  unfold hex_to_rgb.
  destruct (bool_decide (s = []) || bool_decide (s = str "None")); [done|].
  cbv zeta. set (h := lstrip_chars (str "#") s).
  destruct (length h =? 6)%nat eqn:Hlen; [|done]. apply Nat.eqb_eq in Hlen.
  assert (Hb : forall t z, py_int16 db (take 2 t) = Ok z -> -15 <= z <= 255).
  { intros t z. apply py_int16_bound. rewrite length_take. lia. }
  assert (Hr : forall t e, py_int16 db t = Raise e -> e = ValueError).
  { intros t e. apply PyLong_FromString16_raises. }
  destruct (py_int16 db (take 2 h)) as [r|e] eqn:E1; simpl; [|by split; [eapply Hr|]].
  destruct (py_int16 db (take 2 (drop 2 h))) as [g|e] eqn:E2; simpl;
    [|by split; [eapply Hr|]].
  destruct (py_int16 db (take 2 (drop 4 h))) as [b|e] eqn:E3; simpl;
    [|by split; [eapply Hr|]].
  repeat split; try done; by eapply Hb.
Qed.

Example hex_to_rgb_negative :
  hex_to_rgb ascii_db (str "#-1-1-1") = Ok (Some (-1, -1, -1)).
Proof. reflexivity. Qed.

Example hex_to_rgb_colour_name :
  hex_to_rgb ascii_db (str "yellow") = Raise ValueError /\
  hex_to_rgb ascii_db (str "red") = Ok None.
Proof. split; reflexivity. Qed.

(** ** The colours of a theme *)

Lemma hex_to_rgb_in_range (db : UnicodeDB) (s : pystr) (c : rgb) :
  hex_to_rgb db s = Ok (Some c) -> rgb_in_range c.
Proof.
  unfold hex_to_rgb.
  destruct (bool_decide (s = []) || bool_decide (s = str "None")); [done|].
  cbv zeta. set (h := lstrip_chars (str "#") s).
  destruct (length h =? 6)%nat; [|done].
  assert (Hb : forall t z, py_int16 db (take 2 t) = Ok z -> -15 <= z <= 255).
  { intros t z. apply py_int16_bound. rewrite length_take. lia. }
  destruct (py_int16 db (take 2 h)) as [r|e] eqn:E1; simpl; [|done].
  destruct (py_int16 db (take 2 (drop 2 h))) as [g|e] eqn:E2; simpl; [|done].
  destruct (py_int16 db (take 2 (drop 4 h))) as [b|e] eqn:E3; simpl; [|done].
  intros [= <-]. unfold rgb_in_range. simpl. repeat split; by eapply Hb.
Qed.

Lemma plot_color_body_in_range (db : UnicodeDB) (color : option pystr)
    (acc res : list rgb) :
  Forall rgb_in_range acc ->
  plot_color_body db color acc = Ok res ->
  Forall rgb_in_range res.
Proof.
  intros Hacc. unfold plot_color_body.
  destruct (truthy color) as [c|]; simpl; [|by intros [= <-]].
  destruct (hex_to_rgb db c) as [[t|]|e] eqn:Hc; simpl; [| |done]; intros [= <-];
    [|done].
  apply Forall_app. split; [done|]. constructor; [|done].
  by eapply hex_to_rgb_in_range.
Qed.

Lemma plot_color_loop_in_range (db : UnicodeDB) (colors : list (option pystr))
    (acc res : list rgb) :
  Forall rgb_in_range acc ->
  for_each colors (plot_color_body db) acc = Ok res ->
  Forall rgb_in_range res.
Proof.
  revert acc. induction colors as [|color colors IH]; intros acc Hacc; cbn [for_each].
  - by intros [= <-].
  - destruct (plot_color_body db color acc) as [acc'|e] eqn:Hb; simpl; [|done].
    apply IH. by eapply plot_color_body_in_range.
Qed.

Lemma defaults_in_range :
  Forall rgb_in_range
    ([(10, 14, 27); (250, 250, 250); (200, 200, 200); (50, 50, 50); (133, 159, 213)]
       ++ PLOTEXT_COLORS_DARK ++ PLOTEXT_COLORS_LIGHT).
Proof. repeat constructor; simpl; lia. Qed.

Lemma default_in_range (d : rgb) (c : option rgb) :
  rgb_in_range d -> (forall t, c = Some t -> rgb_in_range t) ->
  rgb_in_range (default d c).
Proof. destruct c; simpl; auto. Qed.

Lemma theme_colors_try_usable (db : UnicodeDB) (theme : Theme) (cfg : theme_cfg) :
  theme_colors_try db theme = Ok cfg ->
  plot_colors cfg <> [] /\
  Forall rgb_in_range
    (canvas_color cfg :: axes_color cfg :: ticks_color cfg :: plot_colors cfg) /\
  is_dark cfg = dark theme /\
  rich_colors cfg = get_colors (Ok (Some theme)).
Proof.
  pose proof defaults_in_range as Hd. rewrite !Forall_app in Hd.
  destruct Hd as (Hd1 & Hdark & Hlight).
  rewrite !Forall_cons in Hd1. destruct Hd1 as (D1 & D2 & D3 & D4 & D5 & _).
  unfold theme_colors_try.
  set (loop := for_each _ (plot_color_body db) []).
  set (dbg := if dark theme then (10, 14, 27) else (250, 250, 250)).
  set (dfg := if dark theme then (200, 200, 200) else (50, 50, 50)).
  assert (Hdbg : rgb_in_range dbg) by (subst dbg; by destruct (dark theme)).
  assert (Hdfg : rgb_in_range dfg) by (subst dfg; by destruct (dark theme)).
  destruct (match truthy (background theme) with
            | Some c => hex_to_rgb db c | None => Ok (Some dbg) end)
    as [bg|e] eqn:Hbg; simpl; [|done].
  assert (Bbg : forall t, bg = Some t -> rgb_in_range t).
  { intros t ->. destruct (truthy (background theme)).
    - by eapply hex_to_rgb_in_range.
    - by injection Hbg as <-. }
  destruct (match truthy (surface theme) with
            | Some c => hex_to_rgb db c | None => Ok bg end)
    as [sf|e] eqn:Hsf; simpl; [|done].
  assert (Bsf : forall t, sf = Some t -> rgb_in_range t).
  { intros t ->. destruct (truthy (surface theme)).
    - by eapply hex_to_rgb_in_range.
    - injection Hsf as ->. by apply Bbg. }
  destruct (match truthy (foreground theme) with
            | Some c => hex_to_rgb db c | None => Ok (Some dfg) end)
    as [fg|e] eqn:Hfg; simpl; [|done].
  assert (Bfg : forall t, fg = Some t -> rgb_in_range t).
  { intros t ->. destruct (truthy (foreground theme)).
    - by eapply hex_to_rgb_in_range.
    - by injection Hfg as <-. }
  destruct loop as [pc|e] eqn:Hpc; simpl; [|done]. subst loop.
  apply plot_color_loop_in_range in Hpc; [|constructor].
  intros [= <-]. simpl. split; [|split; [|done]].
  - destruct pc; [by destruct (dark theme)|done].
  - repeat apply Forall_cons_2; try by apply default_in_range.
    + apply default_in_range; [by apply default_in_range|done].
    + destruct pc; [by destruct (dark theme)|done].
Qed.

(** X19: whatever the current theme is, also when reading it fails,
    [_get_theme_colors] returns a configuration whose list of plot colours
    is not empty (so that [plot_colors[i % len(plot_colors)]] in [render]
    is defined), whose colours all have components between -15 and 255,
    and with six colour names, as [_get_colors] gives. *)
Theorem theme_colors_usable (db : UnicodeDB) (current_theme : result (option Theme)) :
  let cfg := get_theme_colors db current_theme in
  plot_colors cfg <> [] /\
  Forall rgb_in_range
    (canvas_color cfg :: axes_color cfg :: ticks_color cfg :: plot_colors cfg) /\
  length (rich_colors cfg) = 6%nat /\
  length (get_colors current_theme) = 6%nat.
Proof.
  assert (Hfb : plot_colors fallback_colors <> [] /\
    Forall rgb_in_range
      (canvas_color fallback_colors :: axes_color fallback_colors ::
       ticks_color fallback_colors :: plot_colors fallback_colors) /\
    length (rich_colors fallback_colors) = 6%nat).
  { split; [done|]. split; [|done]. repeat constructor; simpl; lia. }
  simpl. unfold get_theme_colors, get_colors.
  destruct current_theme as [[theme|]|e]; try (by destruct Hfb as (? & ? & ?)).
  destruct (theme_colors_try db theme) as [cfg|e] eqn:Hcfg.
  - destruct (theme_colors_try_usable db theme cfg Hcfg) as (H1 & H2 & _ & H4).
    rewrite H4. simpl. by destruct (dark theme).
  - destruct Hfb as (? & ? & ?). by destruct (dark theme).
Qed.

Lemma plot_color_loop_raises (db : UnicodeDB) (colors : list (option pystr))
    (acc : list rgb) (c : pystr) (e : exn) :
  Some c ∈ colors -> hex_to_rgb db c = Raise e ->
  exists e', for_each colors (plot_color_body db) acc = Raise e'.
Proof.
  intros Hin Hc. revert acc. induction colors as [|color colors IH]; intros acc.
  - by apply elem_of_nil in Hin.
  - cbn [for_each]. apply elem_of_cons in Hin as [<-|Hin].
    + assert (plot_color_body db (Some c) acc = Raise e) as ->; [|by eexists].
      unfold plot_color_body. destruct c as [|c0 c']; [done|]. simpl.
      by rewrite Hc.
    + destruct (plot_color_body db color acc) as [acc'|e']; simpl; [by apply IH|].
      by eexists.
Qed.

Lemma plot_color_loop_ok (db : UnicodeDB) (colors : list (option pystr))
    (acc : list rgb) :
  (forall c, Some c ∈ colors -> exists t, hex_to_rgb db c = Ok t) ->
  exists res, for_each colors (plot_color_body db) acc = Ok res.
Proof.
  revert acc. induction colors as [|color colors IH]; intros acc Hall; cbn [for_each].
  - by eexists.
  - assert (exists acc', plot_color_body db color acc = Ok acc') as [acc' ->].
    { unfold plot_color_body. destruct color as [[|c0 c']|]; simpl; try by eexists.
      destruct (Hall (c0 :: c')) as [t ->]; [by left|]. simpl. by eexists. }
    simpl. apply IH. intros c Hin. apply Hall. by right.
Qed.

Lemma truthy_convert (db : UnicodeDB) (color : option pystr) (d : result (option rgb)) :
  (forall c, color = Some c -> exists t, hex_to_rgb db c = Ok t) ->
  (exists t, d = Ok t) ->
  exists t, match truthy color with
            | Some c => hex_to_rgb db c
            | None => d
            end = Ok t.
Proof.
  intros Hc Hd. destruct color as [[|c0 c']|]; simpl; try done. by apply Hc.
Qed.

(** X20: if one of the nine colours [_get_theme_colors] reads from the
    theme makes [hex_to_rgb] raise, the whole theme is discarded and the
    dark fallback configuration is returned, also for a light theme; if
    none does, the configuration has the theme's darkness and the colour
    names [_get_colors] gives for it. *)
Theorem theme_discarded_on_bad_colour (db : UnicodeDB) (theme : Theme) :
  (forall c e, Some c ∈ theme_colours theme -> hex_to_rgb db c = Raise e ->
     get_theme_colors db (Ok (Some theme)) = fallback_colors) /\
  ((forall c, Some c ∈ theme_colours theme -> exists t, hex_to_rgb db c = Ok t) ->
     is_dark (get_theme_colors db (Ok (Some theme))) = dark theme /\
     rich_colors (get_theme_colors db (Ok (Some theme))) = get_colors (Ok (Some theme))).
Proof.
  split.
  - intros c e Hin Hc. unfold get_theme_colors.
    destruct (theme_colors_try db theme) as [cfg|e'] eqn:Hcfg; [exfalso|done].
    assert (Htruthy : truthy (Some c) = Some c).
    { destruct c; [done|done]. }
    unfold theme_colors_try in Hcfg.
    set (loop := for_each _ (plot_color_body db) []) in Hcfg.
    unfold theme_colours in Hin. rewrite !elem_of_cons in Hin.
    destruct Hin as [Hin|[Hin|[Hin|Hin]]].
    + rewrite <- Hin, Htruthy, Hc in Hcfg. done.
    + destruct (match truthy (background theme) with
                | Some c => hex_to_rgb db c | None => _ end); simpl in Hcfg; [|done].
      rewrite <- Hin, Htruthy, Hc in Hcfg. done.
    + destruct (match truthy (background theme) with
                | Some c => hex_to_rgb db c | None => _ end); simpl in Hcfg; [|done].
      destruct (match truthy (surface theme) with
                | Some c => hex_to_rgb db c | None => _ end); simpl in Hcfg; [|done].
      rewrite <- Hin, Htruthy, Hc in Hcfg. done.
    + destruct (match truthy (background theme) with
                | Some c => hex_to_rgb db c | None => _ end); simpl in Hcfg; [|done].
      destruct (match truthy (surface theme) with
                | Some c => hex_to_rgb db c | None => _ end); simpl in Hcfg; [|done].
      destruct (match truthy (foreground theme) with
                | Some c => hex_to_rgb db c | None => _ end); simpl in Hcfg; [|done].
      destruct (plot_color_loop_raises db
                  [success theme; primary theme; warning theme;
                   accent theme; error theme; secondary theme] [] c e) as [e' He'];
        [|done|subst loop; by rewrite He' in Hcfg].
      rewrite !elem_of_cons. tauto.
  - intros Hall. unfold get_theme_colors.
    destruct (theme_colors_try db theme) as [cfg|e'] eqn:Hcfg.
    + by destruct (theme_colors_try_usable db theme cfg Hcfg) as (_ & _ & ? & ?).
    + exfalso. unfold theme_colors_try in Hcfg.
      set (loop := for_each _ (plot_color_body db) []) in Hcfg.
      assert (Hattr : forall color, color ∈ theme_colours theme ->
                forall c, color = Some c -> exists t, hex_to_rgb db c = Ok t).
      { intros color Hin c ->. by apply Hall. }
      unfold theme_colours in Hattr.
      destruct (truthy_convert db (background theme)
                  (Ok (Some (if dark theme then (10, 14, 27) else (250, 250, 250)))))
        as [bg Hbg]; [apply Hattr; rewrite !elem_of_cons; tauto|by eexists|].
      rewrite Hbg in Hcfg. simpl in Hcfg.
      destruct (truthy_convert db (surface theme) (Ok bg))
        as [sf Hsf]; [apply Hattr; rewrite !elem_of_cons; tauto|by eexists|].
      rewrite Hsf in Hcfg. simpl in Hcfg.
      destruct (truthy_convert db (foreground theme)
                  (Ok (Some (if dark theme then (200, 200, 200) else (50, 50, 50)))))
        as [fg Hfg]; [apply Hattr; rewrite !elem_of_cons; tauto|by eexists|].
      rewrite Hfg in Hcfg. simpl in Hcfg.
      destruct (plot_color_loop_ok db
                  [success theme; primary theme; warning theme;
                   accent theme; error theme; secondary theme] []) as [pc Hpc].
      { intros c Hin. apply Hall. unfold theme_colours.
        do 3 (apply elem_of_cons; right). done. }
      subst loop. rewrite Hpc in Hcfg. done.
Qed.

(** A light theme with the colour name "yellow" is drawn with the dark
    fallback, while the table of values keeps the light colour names. *)
Example theme_yellow_discarded :
  get_theme_colors ascii_db (Ok (Some theme_yellow)) = fallback_colors /\
  get_colors (Ok (Some theme_yellow)) = RICH_COLORS_LIGHT.
Proof. split; reflexivity. Qed.

(** ** The graph modes, the older store and the x axis *)

(** X21: [toggle_mode] steps through the three graph modes in a cycle: from
    each of line, bar, scatter, three calls lead back to it through the two
    other modes; on any other mode it raises [ValueError]. *)
Theorem toggle_mode_cycle (m : pystr) :
  (m ∈ [GRAPH_MODE_LINE; GRAPH_MODE_BAR; GRAPH_MODE_SCATTER] ->
   exists m1 m2,
     toggle_mode m = Ok m1 /\ toggle_mode m1 = Ok m2 /\ toggle_mode m2 = Ok m /\
     NoDup [m; m1; m2]) /\
  (m ∉ [GRAPH_MODE_LINE; GRAPH_MODE_BAR; GRAPH_MODE_SCATTER] ->
   toggle_mode m = Raise ValueError).
Proof.
  split.
  - rewrite !elem_of_cons, elem_of_nil.
    intros [->|[->|[->|[]]]]; eexists _, _;
      (split; [reflexivity|split; [reflexivity|split; [reflexivity|]]]);
      repeat constructor; rewrite ?elem_of_cons, ?elem_of_nil; intros H;
      repeat (destruct H as [H|H]; try discriminate H); done.
  - rewrite !elem_of_cons, elem_of_nil. intros Hm.
    unfold toggle_mode. cbn [list_index].
    rewrite !bool_decide_eq_false_2; [done|..]; intros H; apply Hm; auto.
Qed.










